(** * The [file-extension-in-import] rule of eslint-plugin-node

    A shallow embedding of [lib/rules/file-extension-in-import.js] and of
    the pieces of the Node.js runtime it calls ([path.extname],
    [path.basename], [path.dirname], [String.prototype.lastIndexOf],
    [String.prototype.slice], [fs.readdirSync]), followed by the
    properties of the rule.

    Conventions.
    - A JavaScript string is the sequence of its code units, here
      [list ascii]; [str "..."] writes a literal.
    - Offsets and the [-1] sentinels of the runtime are in [Z].
    - [path] is the POSIX flavour of Node's module ([path.posix]).
    - A JavaScript exception is the [Throw] case of [Completion]. *)

From Stdlib Require Import ZArith Lia List Ascii String Bool.
From stdpp Require Import base option list gmap strings.

Open Scope Z_scope.

(** ** JavaScript strings *)

Abbreviation jsstring := (list ascii).

Definition str (s : string) : jsstring := list_ascii_of_string s.

Definition CHAR_FORWARD_SLASH : ascii := "/"%char.
Definition CHAR_BACKWARD_SLASH : ascii := "\"%char.
Definition CHAR_DOT : ascii := "."%char.
Definition CHAR_LT : ascii := "<"%char.
Definition CHAR_DOUBLE_QUOTE : ascii := ascii_of_nat 34.

Definition len (s : jsstring) : Z := Z.of_nat (length s).

(** [s.slice(from, to)]: negative arguments count from the end, both are
    clamped to the string, and an empty span gives the empty string. *)
Definition clamp (n : Z) (i : Z) : Z :=
  if i <? 0 then Z.max (n + i) 0 else Z.min i n.

Definition slice (s : jsstring) (from to : Z) : jsstring :=
  let from' := clamp (len s) from in
  let to' := clamp (len s) to in
  take (Z.to_nat (to' - from')) (drop (Z.to_nat from') s).

(** [s.slice(from)] *)
Definition sliceFrom (s : jsstring) (from : Z) : jsstring :=
  slice s from (len s).

(** [s.startsWith(p)] *)
Fixpoint startsWith (s p : jsstring) {struct p} : bool :=
  match p with
  | [] => true
  | c :: p' =>
    match s with
    | [] => false
    | d :: s' => if decide (c = d) then startsWith s' p' else false
    end
  end.

(** [s.lastIndexOf(pat)]: the largest [k] with [k + pat.length <= s.length]
    at which [pat] occurs in [s], or [-1]. *)
Fixpoint lastIndexOf_from (s pat : jsstring) (k : nat) : Z :=
  if startsWith (drop k s) pat then Z.of_nat k
  else match k with
       | O => -1
       | S k' => lastIndexOf_from s pat k'
       end.

Definition lastIndexOf (s pat : jsstring) : Z :=
  if (length s <? length pat)%nat then -1
  else lastIndexOf_from s pat (length s - length pat).

(** The regular expression [/[/\\]/u] of the rule, as [test]. *)
Definition isSeparator (c : ascii) : bool :=
  bool_decide (c = CHAR_FORWARD_SLASH) || bool_decide (c = CHAR_BACKWARD_SLASH).

Definition hasPathSeparator (name : jsstring) : bool :=
  existsb isSeparator name.

(** ** Node's [path] module (POSIX)

    Each function scans the path from its last code unit to its first.
    The loops are written over the reversed path: when the head of the
    reversed path is visited, the length of its tail is the index [i] of
    the loop. *)
Module Path.

(** *** [path.extname] *)

Record ExtnameVars := mkExtnameVars {
  startDot : Z;
  startPart : Z;
  end_ : Z;
  matchedSlash : bool;
  preDotState : Z
}.

Definition extname_init : ExtnameVars :=
  {| startDot := -1; startPart := 0; end_ := -1;
     matchedSlash := true; preDotState := 0 |}.

Fixpoint extname_loop (rpath : jsstring) (v : ExtnameVars) : ExtnameVars :=
  match rpath with
  | [] => v
  | code :: rest =>
    let i := len rest in
    if decide (code = CHAR_FORWARD_SLASH) then
      if negb (matchedSlash v) then
        (* startPart = i + 1; break *)
        mkExtnameVars (startDot v) (i + 1) (end_ v) (matchedSlash v)
                      (preDotState v)
      else extname_loop rest v (* continue *)
    else
      let v1 :=
        if end_ v =? -1
        then mkExtnameVars (startDot v) (startPart v) (i + 1) false
                           (preDotState v)
        else v in
      let v2 :=
        if decide (code = CHAR_DOT) then
          if startDot v1 =? -1
          then mkExtnameVars i (startPart v1) (end_ v1) (matchedSlash v1)
                             (preDotState v1)
          else if negb (preDotState v1 =? 1)
          then mkExtnameVars (startDot v1) (startPart v1) (end_ v1)
                             (matchedSlash v1) 1
          else v1
        else if negb (startDot v1 =? -1)
        then mkExtnameVars (startDot v1) (startPart v1) (end_ v1)
                           (matchedSlash v1) (-1)
        else v1 in
      extname_loop rest v2
  end.

Definition extname_none (v : ExtnameVars) : bool :=
  (startDot v =? -1) || (end_ v =? -1) || (preDotState v =? 0)
  || ((preDotState v =? 1) && (startDot v =? end_ v - 1)
      && (startDot v =? startPart v + 1)).

Definition extname (path : jsstring) : jsstring :=
  let v := extname_loop (rev path) extname_init in
  if extname_none v then [] else slice path (startDot v) (end_ v).

(** *** [path.basename] *)

Record BasenameVars := mkBasenameVars {
  bn_start : Z;
  bn_end : Z;
  bn_matchedSlash : bool;
  bn_extIdx : Z;
  bn_firstNonSlashEnd : Z
}.

Definition charCodeAt (s : jsstring) (i : Z) : option ascii :=
  if i <? 0 then None else s !! Z.to_nat i.

(** The loop taken when a non-empty suffix no longer than the path is
    given. *)
Fixpoint basename_ext_loop (suffix rpath : jsstring) (v : BasenameVars)
  : BasenameVars :=
  match rpath with
  | [] => v
  | code :: rest =>
    let i := len rest in
    if decide (code = CHAR_FORWARD_SLASH) then
      if negb (bn_matchedSlash v) then
        (* start = i + 1; break *)
        mkBasenameVars (i + 1) (bn_end v) (bn_matchedSlash v) (bn_extIdx v)
                       (bn_firstNonSlashEnd v)
      else basename_ext_loop suffix rest v
    else
      let v1 :=
        if bn_firstNonSlashEnd v =? -1
        then mkBasenameVars (bn_start v) (bn_end v) false (bn_extIdx v)
                            (i + 1)
        else v in
      let v2 :=
        if 0 <=? bn_extIdx v1 then
          if decide (Some code = charCodeAt suffix (bn_extIdx v1)) then
            (* --extIdx === -1 *)
            let extIdx' := bn_extIdx v1 - 1 in
            if extIdx' =? -1
            then mkBasenameVars (bn_start v1) i (bn_matchedSlash v1) extIdx'
                                (bn_firstNonSlashEnd v1)
            else mkBasenameVars (bn_start v1) (bn_end v1)
                                (bn_matchedSlash v1) extIdx'
                                (bn_firstNonSlashEnd v1)
          else
            mkBasenameVars (bn_start v1) (bn_firstNonSlashEnd v1)
                           (bn_matchedSlash v1) (-1)
                           (bn_firstNonSlashEnd v1)
        else v1 in
      basename_ext_loop suffix rest v2
  end.

(** The loop taken otherwise; only [start], [end] and [matchedSlash]
    are live. *)
Fixpoint basename_loop (rpath : jsstring) (v : BasenameVars) : BasenameVars :=
  match rpath with
  | [] => v
  | code :: rest =>
    let i := len rest in
    if decide (code = CHAR_FORWARD_SLASH) then
      if negb (bn_matchedSlash v) then
        mkBasenameVars (i + 1) (bn_end v) (bn_matchedSlash v) (bn_extIdx v)
                       (bn_firstNonSlashEnd v)
      else basename_loop rest v
    else if bn_end v =? -1 then
      basename_loop rest
        (mkBasenameVars (bn_start v) (i + 1) false (bn_extIdx v)
                        (bn_firstNonSlashEnd v))
    else basename_loop rest v
  end.

Definition basename (path suffix : jsstring) : jsstring :=
  if (0 <? len suffix) && (len suffix <=? len path) then
    if decide (suffix = path) then []
    else
      let v := basename_ext_loop suffix (rev path)
                 (mkBasenameVars 0 (-1) true (len suffix - 1) (-1)) in
      let end' :=
        if bn_start v =? bn_end v then bn_firstNonSlashEnd v
        else if bn_end v =? -1 then len path
        else bn_end v in
      slice path (bn_start v) end'
  else
    let v := basename_loop (rev path) (mkBasenameVars 0 (-1) true 0 (-1)) in
    if bn_end v =? -1 then [] else slice path (bn_start v) (bn_end v).

(** *** [path.dirname] *)

(** The loop stops at index 1: the first code unit is not visited.
    The result is the value of [end]. *)
Fixpoint dirname_loop (rpath : jsstring) (matched : bool) : Z :=
  match rpath with
  | [] => -1
  | code :: rest =>
    let i := len rest in
    if i <? 1 then -1
    else if decide (code = CHAR_FORWARD_SLASH) then
      if negb matched then i (* end = i; break *)
      else dirname_loop rest matched
    else dirname_loop rest false
  end.

Definition dirname (path : jsstring) : jsstring :=
  match path with
  | [] => str "."
  | c0 :: _ =>
    let hasRoot := bool_decide (c0 = CHAR_FORWARD_SLASH) in
    let e := dirname_loop (rev path) true in
    if e =? -1 then (if hasRoot then str "/" else str ".")
    else if hasRoot && (e =? 1) then str "//"
    else slice path 0 e
  end.

End Path.

(** ** Exceptions *)

Inductive JsError := ENOENT | EACCES | ENOTDIR | EOTHER.

Inductive Completion (A : Type) : Type :=
| Normal (a : A)
| Throw (e : JsError).
Arguments Normal {A} a.
Arguments Throw {A} e.

#[global] Instance completion_ret : MRet Completion := fun A a => Normal a.
#[global] Instance completion_bind : MBind Completion := fun A B k m =>
  match m with
  | Normal a => k a
  | Throw e => Throw e
  end.

(** [try { body } catch (_error) { handler }] *)
Definition tryCatch {A} (body : Completion A)
    (handler : JsError -> Completion A) : Completion A :=
  match body with
  | Normal a => Normal a
  | Throw e => handler e
  end.

(** [xs.forEach(f)] where [f] may report: the reports of the calls, in
    order, up to the first exception. *)
Fixpoint forEach {A B} (f : A -> Completion (option B)) (xs : list A)
  : Completion (list B) :=
  match xs with
  | [] => Normal []
  | x :: xs' =>
    r ← f x;
    rs ← forEach f xs';
    Normal (match r with Some b => b :: rs | None => rs end)
  end.

(** ** ESLint's side: nodes, fixes, reports *)

Record Node := mkNode { range : Z * Z }.

(** A fix is a replacement of the text of [fix_range] by [fix_text]. *)
Record Fix := mkFix { fix_range : Z * Z; fix_text : jsstring }.

Module Fixer.
Definition insertTextBeforeRange (r : Z * Z) (text : jsstring) : Fix :=
  mkFix (fst r, fst r) text.
Definition removeRange (r : Z * Z) : Fix := mkFix r [].
End Fixer.

(** The source text after a fix:
    [text.slice(0, start) + fix.text + text.slice(end)]. *)
Definition applyFix (text : jsstring) (f : Fix) : jsstring :=
  slice text 0 (fst (fix_range f)) ++ fix_text f
  ++ sliceFrom text (snd (fix_range f)).

Inductive MessageId := requireExt | forbidExt.

(** The argument of [context.report]. [fix_] is the value that the [fix]
    callback returns when ESLint calls it with its fixer; [None] is
    [null]. *)
Record Descriptor := mkDescriptor {
  d_node : Node;
  messageId : MessageId;
  data_ext : jsstring;
  fix_ : option Fix
}.

(** ** Options and context *)

Inductive Style := always | never.

#[global] Instance Style_eq_dec : EqDecision Style.
Proof. solve_decision. Defined.

(** A value of the second option object: a style, or the array under
    the key [tryExtensions]. *)
Inductive OptionValue :=
| StyleValue (s : Style)
| TryExtensions (exts : list jsstring).

#[global] Instance OptionValue_eq_dec : EqDecision OptionValue.
Proof. solve_decision. Defined.

Record Context := mkContext {
  getFilename : jsstring;
  options0 : option Style;
  options1 : option (gmap jsstring OptionValue)
}.

(** An import target, as [getImportExportTargets] produces it:
    [filePath] is [None] for [null]. *)
Record Target := mkTarget {
  filePath : option jsstring;
  name : jsstring;
  node : Node
}.

(** Truthiness of a string. *)
Definition truthy (s : jsstring) : bool :=
  match s with [] => false | _ :: _ => true end.

(** [xs[0]], read only where the length of [xs] has been checked to be
    one. *)
Definition first (xs : list jsstring) : jsstring :=
  match xs with e :: _ => e | [] => [] end.

(** ** The rule *)

Section Rule.

(** [fs.readdirSync] *)
Variable readdirSync : jsstring -> Completion (list jsstring).

(** [lib/util/get-import-export-targets] *)
Variable ProgramNode : Type.
Variable getImportExportTargets : Context -> ProgramNode -> Z -> list Target.

Definition getExistingExtensions (filePath : jsstring)
  : Completion (list jsstring) :=
  let basename := Path.basename filePath (Path.extname filePath) in
  tryCatch
    (entries ← readdirSync (Path.dirname filePath);
     Normal
       (map (fun filename => Path.extname filename)
          (List.filter
             (fun filename =>
                bool_decide
                  (Path.basename filename (Path.extname filename) = basename))
             entries)))
    (fun _error => Normal []).

(** [overrideStyle[ext] || defaultStyle]. Every value of the object is
    truthy, and [ext], empty or beginning with a dot, names no property
    that the object inherits. *)
Definition effectiveStyle (defaultStyle : Style)
    (overrideStyle : gmap jsstring OptionValue) (ext : jsstring)
  : OptionValue :=
  match overrideStyle !! ext with
  | Some v => v
  | None => StyleValue defaultStyle
  end.

(** The part of [verify] under its comment "Verify.": the decision for
    a target whose extension [ext] has been determined. *)
Definition verifyExtension (defaultStyle : Style)
    (overrideStyle : gmap jsstring OptionValue) (t : Target)
    (existingExts : list jsstring) (ext : jsstring)
  : option Descriptor :=
  let name := name t in
  let node := node t in
  let originalExt := Path.extname name in
  let style := effectiveStyle defaultStyle overrideStyle ext in
  if bool_decide (style = StyleValue always)
     && negb (bool_decide (ext = originalExt)) then
    Some
      {| d_node := node;
         messageId := requireExt;
         data_ext := ext;
         fix_ :=
           if negb (length existingExts =? 1)%nat then None
           else
             let index := snd (range node) - 1 in
             Some (Fixer.insertTextBeforeRange (index, index) ext) |}
  else if bool_decide (style = StyleValue never)
          && bool_decide (ext = originalExt) then
    Some
      {| d_node := node;
         messageId := forbidExt;
         data_ext := ext;
         fix_ :=
           if negb (length existingExts =? 1)%nat then None
           else
             let index := lastIndexOf name ext in
             let start := fst (range node) + 1 + index in
             let end_ := start + len ext in
             Some (Fixer.removeRange (start, end_)) |}
  else None.

Definition verify (defaultStyle : Style)
    (overrideStyle : gmap jsstring OptionValue) (t : Target)
  : Completion (option Descriptor) :=
  match filePath t with
  | None => Normal None
  | Some filePath =>
    (* Ignore if it's not resolved to a file or it's a bare module. *)
    if negb (truthy filePath) || negb (hasPathSeparator (name t))
    then Normal None
    else
      (* Get extension. *)
      let resolvedExt := Path.extname filePath in
      existingExts ← getExistingExtensions filePath;
      if negb (truthy resolvedExt) && negb (length existingExts =? 1)%nat
      then Normal None
      else
        let ext := if truthy resolvedExt then resolvedExt
                   else first existingExts in
        Normal (verifyExtension defaultStyle overrideStyle t existingExts ext)
  end.

(** A visitor object: handlers by selector. *)
Abbreviation Visitor :=
  (gmap jsstring (ProgramNode -> Completion (list Descriptor))).

Definition create (context : Context) : Visitor :=
  if startsWith (getFilename context) [CHAR_LT] then ∅
  else
    let defaultStyle := default always (options0 context) in
    let overrideStyle := default ∅ (options1 context) in
    {[ str "Program:exit" :=
         fun node =>
           forEach (verify defaultStyle overrideStyle)
                   (getImportExportTargets context node 1) ]}.

(** One analysis run as the linter performs it on a program: the rule
    is created, and the handler registered for the exit of the
    [Program] node, if any, is called on it. *)
Definition run (context : Context) (program : ProgramNode)
  : Completion (list Descriptor) :=
  match create context !! str "Program:exit" with
  | Some handler => handler program
  | None => Normal []
  end.

End Rule.

(** ** Fixes and specifier literals *)

(** The literal of target [t] sits in [code] between quotes [q]: the
    range of the node covers the quotes and the text between them is the
    specifier. *)
Definition SpecifierAt (code : jsstring) (q : ascii) (t : Target)
    (pre post : jsstring) : Prop :=
  code = pre ++ q :: name t ++ q :: post
  /\ range (node t) = (len pre, len pre + len (name t) + 2).

(** The specifier after fix [f], read off the fixed literal: the fix
    moved from offsets of the source text to offsets of the specifier. *)
Definition fixedName (t : Target) (f : Fix) : jsstring :=
  let off := fst (range (node t)) + 1 in
  applyFix (name t)
    (mkFix (fst (fix_range f) - off, snd (fix_range f) - off) (fix_text f)).

(** The target seen when the fixed text is analysed again with the same
    resolution. *)
Definition fixedTarget (t : Target) (f : Fix) : Target :=
  let name' := fixedName t f in
  {| filePath := filePath t;
     name := name';
     node := mkNode (fst (range (node t)),
                     fst (range (node t)) + len name' + 2) |}.

(** Directory listings given as a table; a directory missing from the
    table does not exist. *)
Definition listing (dirs : list (jsstring * list jsstring)) (dir : jsstring)
  : Completion (list jsstring) :=
  match List.find (fun e => bool_decide (fst e = dir)) dirs with
  | Some e => Normal (snd e)
  | None => Throw ENOENT
  end.

(** ** The canonical extension, in the words of the specification

    The extension of the resolved path when it has one; otherwise the
    only extension that the discovery found, when it found exactly one. *)
Definition canonicalExtension (resolvedExt : jsstring)
    (existingExts : list jsstring) : option jsstring :=
  match resolvedExt with
  | _ :: _ => Some resolvedExt
  | [] => match existingExts with
          | [e] => Some e
          | _ => None
          end
  end.

(** ** Shapes of paths *)

Definition allSlash (s : jsstring) : Prop :=
  Forall (fun c => c = CHAR_FORWARD_SLASH) s.
Definition noSlash (s : jsstring) : Prop :=
  Forall (fun c => c <> CHAR_FORWARD_SLASH) s.
Definition noDot (s : jsstring) : Prop :=
  Forall (fun c => c <> CHAR_DOT) s.

(** The value of [preDotState] once the code units [b], the nearest
    last, have been visited to the left of the first dot seen. *)
Definition preDotOf (b : jsstring) : Z :=
  match b with
  | [] => 0
  | x :: _ => if decide (x = CHAR_DOT) then 1 else -1
  end.

(** The variables of [extname] after the suffix [seen] has been visited
    without leaving the loop, [n] code units remaining. *)
Definition Scanned (n : Z) (seen : jsstring) (v : Path.ExtnameVars) : Prop :=
  Path.startPart v = 0 /\
  ((allSlash seen /\ v = Path.extname_init)
   \/ exists body sl,
        seen = body ++ sl /\ body <> [] /\ noSlash body /\ allSlash sl
        /\ Path.matchedSlash v = false /\ Path.end_ v = n + len body
        /\ ((noDot body /\ Path.startDot v = -1 /\ Path.preDotState v = 0)
            \/ exists b1 r,
                 body = b1 ++ CHAR_DOT :: r /\ noDot r
                 /\ Path.startDot v = n + len b1
                 /\ Path.preDotState v = preDotOf b1)).

(** The variables of [extname] when the loop is left. *)
Definition Final (path : jsstring) (v : Path.ExtnameVars) : Prop :=
  (allSlash path /\ v = Path.extname_init)
  \/ exists pre body sl,
       path = pre ++ body ++ sl /\ body <> [] /\ noSlash body /\ allSlash sl
       /\ (pre = [] \/ exists pre', pre = pre' ++ [CHAR_FORWARD_SLASH])
       /\ Path.startPart v = len pre /\ Path.end_ v = len pre + len body
       /\ ((noDot body /\ Path.startDot v = -1 /\ Path.preDotState v = 0)
           \/ exists b1 r,
                body = b1 ++ CHAR_DOT :: r /\ noDot r
                /\ Path.startDot v = len pre + len b1
                /\ Path.preDotState v = preDotOf b1).

(** ** The diagnostics, in the words of the specification *)

(** The specifier literal of [t] covers its two quotes and the specifier
    between them. *)
Definition LiteralRange (t : Target) : Prop :=
  snd (range (node t)) = fst (range (node t)) + len (name t) + 2.

(** "Require file extension [ext]", with the insertion of [ext] at the
    offset of the closing quote when the discovery found one
    extension. *)
Definition requireExtReport (t : Target) (existingExts : list jsstring)
    (ext : jsstring) : Descriptor :=
  {| d_node := node t;
     messageId := requireExt;
     data_ext := ext;
     fix_ :=
       if decide (length existingExts = 1%nat)
       then Some (mkFix (snd (range (node t)) - 1, snd (range (node t)) - 1)
                        ext)
       else None |}.

(** "Forbid file extension [ext]", with the removal of the occurrence of
    [ext] that [lastIndexOf] finds in the specifier, one past the start
    of the literal, when the discovery found one extension. *)
Definition forbidExtReport (t : Target) (existingExts : list jsstring)
    (ext : jsstring) : Descriptor :=
  {| d_node := node t;
     messageId := forbidExt;
     data_ext := ext;
     fix_ :=
       if decide (length existingExts = 1%nat)
       then Some (mkFix (fst (range (node t)) + 1 + lastIndexOf (name t) ext,
                         fst (range (node t)) + 1 + lastIndexOf (name t) ext
                         + len ext)
                        [])
       else None |}.

(** ** The schema of the second option

    Every key other than [tryExtensions] holds a style
    ([additionalProperties] of the schema in [meta]). *)
Definition SchemaValid (overrideStyle : gmap jsstring OptionValue) : Prop :=
  forall k v, overrideStyle !! k = Some v ->
              k <> str "tryExtensions" -> exists s, v = StyleValue s.

(** ** Sample inputs *)

(** No overrides, and the override of [.js] by [never]. *)
Definition noOverrides : gmap jsstring OptionValue := ∅.
Definition neverForJs : gmap jsstring OptionValue :=
  {[ str ".js" := StyleValue never ]}.

(** A directory [/p] with the files [a.js] and [b.js]. *)
Definition fsPlain : jsstring -> Completion (list jsstring) :=
  listing [(str "/p", [str "a.js"; str "b.js"])].

(** A directory [/p] with the files [a.js] and [a.ts]. *)
Definition fsTwins : jsstring -> Completion (list jsstring) :=
  listing [(str "/p", [str "a.js"; str "a.ts"])].

(** A directory [/p] with the file [a.js.js]. *)
Definition fsDouble : jsstring -> Completion (list jsstring) :=
  listing [(str "/p", [str "a.js.js"; str "b.js"])].

(** A directory [/p/a] with the file [index.js]. *)
Definition fsIndex : jsstring -> Completion (list jsstring) :=
  listing [(str "/p/a", [str "index.js"])].

(** [import "./a"], the literal at offset 7, resolved to [/p/a.js]. *)
Definition targetNoExt : Target :=
  mkTarget (Some (str "/p/a.js")) (str "./a") (mkNode (7, 12)).

(** [import "./a.js"], the literal at offset 7, resolved to [/p/a.js]. *)
Definition targetExt : Target :=
  mkTarget (Some (str "/p/a.js")) (str "./a.js") (mkNode (7, 15)).

(** [import "./a.js/"], the literal at offset 7, resolved to [/p/a.js]. *)
Definition targetTrailingSlash : Target :=
  mkTarget (Some (str "/p/a.js")) (str "./a.js/") (mkNode (7, 16)).

(** [import "./a.js.js"], the literal at offset 7, resolved to [/p/a.js.js]. *)
Definition targetDouble : Target :=
  mkTarget (Some (str "/p/a.js.js")) (str "./a.js.js") (mkNode (7, 18)).

(** [import "./a/"], the literal at offset 7, resolved to [/p/a/index.js]. *)
Definition targetDirectory : Target :=
  mkTarget (Some (str "/p/a/index.js")) (str "./a/") (mkNode (7, 13)).

(** [import "fs"], not resolved. *)
Definition targetBare : Target :=
  mkTarget None (str "fs") (mkNode (7, 11)).

(** The text [import "./a.js/"]. *)
Definition codeTrailingSlash : jsstring :=
  str "import " ++ CHAR_DOUBLE_QUOTE :: str "./a.js/" ++ [CHAR_DOUBLE_QUOTE].

(** A directory [/p] with the file [cli], which has no extension. *)
Definition fsCli : jsstring -> Completion (list jsstring) :=
  listing [(str "/p", [str "cli"; str "main.js"])].

(** [import "./cli"], the literal at offset 7, resolved to [/p/cli]. *)
Definition targetCli : Target :=
  mkTarget (Some (str "/p/cli")) (str "./cli") (mkNode (7, 14)).

(** [import "./a"], the literal at offset 7, with the path
    [/missing/a.js] in a directory that does not exist. *)
Definition targetUnlisted : Target :=
  mkTarget (Some (str "/missing/a.js")) (str "./a") (mkNode (7, 12)).

(** The directory [/p] of [fsPlain] and a directory [/q]. *)
Definition fsPlainAndMore : jsstring -> Completion (list jsstring) :=
  listing [(str "/p", [str "a.js"; str "b.js"]); (str "/q", [str "a.ts"])].

(** The removal of the empty range at the end of the specifier of
    [t]. *)
Definition voidFix (t : Target) : Fix :=
  Fixer.removeRange (fst (range (node t)) + 1 + len (name t),
                     fst (range (node t)) + 1 + len (name t)).

(** ** Paths split at their last component *)

(** [P] is empty or ends in a slash: what precedes the last component
    of a path without trailing slashes. *)
Definition endsDirectory (P : jsstring) : Prop :=
  P = [] \/ exists p, P = p ++ [CHAR_FORWARD_SLASH].

(** [path] is [P] followed by its last component [comp]. *)
Definition SplitPath (path P comp : jsstring) : Prop :=
  path = P ++ comp /\ comp <> [] /\ noSlash comp /\ endsDirectory P.

(** A name as a directory listing gives it: not empty, no slash. *)
Definition EntryName (e : jsstring) : Prop := e <> [] /\ noSlash e.

(** A name without its extension. *)
Definition stem (x : jsstring) : jsstring :=
  take (length x - length (Path.extname x)) x.

(** ** Moving a literal in the source text *)

Definition shiftRange (k : Z) (r : Z * Z) : Z * Z := (fst r + k, snd r + k).

Definition shiftTarget (k : Z) (t : Target) : Target :=
  {| filePath := filePath t;
     name := name t;
     node := mkNode (shiftRange k (range (node t))) |}.

Definition shiftDescriptor (k : Z) (d : Descriptor) : Descriptor :=
  {| d_node := mkNode (shiftRange k (range (d_node d)));
     messageId := messageId d;
     data_ext := data_ext d;
     fix_ := match fix_ d with
             | Some f => Some (mkFix (shiftRange k (fix_range f)) (fix_text f))
             | None => None
             end |}.

(** The report of [verify] on one target, if any. *)
Definition reportOf (readdirSync : jsstring -> Completion (list jsstring))
    (defaultStyle : Style) (overrideStyle : gmap jsstring OptionValue)
    (t : Target) : option Descriptor :=
  match verify readdirSync defaultStyle overrideStyle t with
  | Normal r => r
  | Throw _ => None
  end.

(** * Properties *)

(** ** Strings *)

Lemma len_app (a b : jsstring) : len (a ++ b) = len a + len b.
Proof. unfold len. rewrite length_app. lia. Qed.

Lemma len_cons c (a : jsstring) : len (c :: a) = len a + 1.
Proof. unfold len. simpl. lia. Qed.

Lemma len_nonneg (a : jsstring) : 0 <= len a.
Proof. unfold len. lia. Qed.

Lemma len_nil : len [] = 0.
Proof. reflexivity. Qed.

Lemma slice_middle (a b c : jsstring) :
  slice (a ++ b ++ c) (len a) (len a + len b) = b.
Proof.
  unfold slice, clamp. rewrite !len_app.
  pose proof (len_nonneg a). pose proof (len_nonneg b).
  pose proof (len_nonneg c).
  destruct (Z.ltb_spec (len a) 0); [lia|].
  destruct (Z.ltb_spec (len a + len b) 0); [lia|].
  rewrite !Z.min_l by lia.
  replace (Z.to_nat (len a)) with (length a) by (unfold len; lia).
  replace (Z.to_nat (len a + len b - len a)) with (length b)
    by (unfold len; lia).
  rewrite drop_app_length. apply take_app_length.
Qed.

Lemma slice_prefix (a b : jsstring) : slice (a ++ b) 0 (len a) = a.
Proof.
  pose proof (slice_middle [] a b) as H. simpl in H.
  rewrite len_nil in H. simpl in H. exact H.
Qed.

Lemma sliceFrom_suffix (a b : jsstring) : sliceFrom (a ++ b) (len a) = b.
Proof.
  unfold sliceFrom. pose proof (slice_middle a b []) as H.
  rewrite !app_nil_r in H. rewrite len_app. exact H.
Qed.

(** ** Node's [path] on sample paths *)

Example extname_samples :
  map (fun p => Path.extname (str p))
      ["./a.js"; "./a.js/"; "./a"; ".bashrc"; "a/.."; "a."; "a.b.c"; "..";
       "/p/.a.b"; "./a/.js"; "///"]%string
  = map str [".js"; ".js"; ""; ""; ""; "."; ".c"; ""; ".b"; ""; ""]%string.
Proof. vm_compute. reflexivity. Qed.

Example basename_samples :
  map (fun '(p, e) => Path.basename (str p) (str e))
      [("/p/a.js", ".js"); ("/p/a.js", ""); ("index.js", ".js");
       (".js", ".js"); ("/p/.js", ".js"); ("/p/a.js/", ".js");
       ("a.js.js", ".js"); ("Makefile", "")]%string
  = map str ["a"; "a.js"; "index"; ""; ".js"; "a"; "a.js"; "Makefile"]%string.
Proof. vm_compute. reflexivity. Qed.

Example dirname_samples :
  map (fun p => Path.dirname (str p))
      ["/p/a.js"; "/a"; "a"; "//a"; "/p/a/"; "./a/b"; ""; "/";
       "/p/a/index.js"]%string
  = map str ["/p"; "/"; "."; "//"; "/p"; "./a"; "."; "/"; "/p/a"]%string.
Proof. vm_compute. reflexivity. Qed.

Example lastIndexOf_samples :
  lastIndexOf (str "./a.js/") (str ".js") = 3
  /\ lastIndexOf (str "./a.js.js") (str ".js") = 6
  /\ lastIndexOf (str "./a") (str ".js") = -1
  /\ lastIndexOf (str "./a") [] = 3.
Proof. vm_compute. repeat split; reflexivity. Qed.

(** ** [path.extname] *)

Lemma len_rev (a : jsstring) : len (rev a) = len a.
Proof. unfold len. now rewrite length_rev. Qed.

Lemma Scanned_start (path : jsstring) : Scanned (len path) [] Path.extname_init.
Proof. split; [reflexivity|]. left. split; [constructor|reflexivity]. Qed.

Local Ltac shape :=
  split_and!; auto; try (simpl; lia);
  try (constructor; solve [auto | constructor]).

Lemma extname_loop_final (rl : jsstring) :
  forall seen v,
    Scanned (len rl) seen v ->
    Final (rev rl ++ seen) (Path.extname_loop rl v).
Proof.
  induction rl as [|c rest IH]; intros seen v [Hsp H].
  - simpl.
    destruct H as [[Hall ->]|(body & sl & -> & Hne & Hns & Hsl & Hm & He & Hd)].
    + left. auto.
    + right. exists [], body, sl. rewrite len_nil in *. shape.
  - replace (rev (c :: rest) ++ seen) with (rev rest ++ c :: seen)
      by (simpl; rewrite <- app_assoc; reflexivity).
    rewrite len_cons in H. pose proof (len_nonneg rest) as Hrest.
    simpl Path.extname_loop.
    destruct (decide (c = CHAR_FORWARD_SLASH)) as [->|Hc].
    + destruct H as [[Hall ->]|(body & sl & -> & Hne & Hns & Hsl & Hm & He & Hd)].
      * simpl. apply IH. split; [reflexivity|]. left.
        split; [constructor; auto|reflexivity].
      * rewrite Hm. simpl. right.
        exists (rev rest ++ [CHAR_FORWARD_SLASH]), body, sl.
        rewrite len_app, len_rev, len_cons, len_nil.
        rewrite <- app_assoc. simpl. split_and!; eauto; lia.
    + apply IH.
      destruct H as [[Hall ->]|(body & sl & -> & Hne & Hns & Hsl & Hm & He & Hd)].
      * simpl. destruct (decide (c = CHAR_DOT)) as [->|Hdot]; simpl.
        -- split; [reflexivity|]. right. exists [CHAR_DOT], seen. shape.
           right. exists [], []. rewrite len_nil. shape.
        -- split; [reflexivity|]. right. exists [c], seen. shape.
           left. shape.
      * pose proof (len_nonneg body) as Hb.
        destruct (Z.eqb_spec (Path.end_ v) (-1)) as [E|E]; [lia|].
        assert (Hshape : forall v',
                   Path.startPart v' = 0 -> Path.matchedSlash v' = false ->
                   Path.end_ v' = Path.end_ v ->
                   ((noDot (c :: body) /\ Path.startDot v' = -1
                     /\ Path.preDotState v' = 0)
                    \/ exists b1 r,
                        c :: body = b1 ++ CHAR_DOT :: r /\ noDot r
                        /\ Path.startDot v' = len rest + len b1
                        /\ Path.preDotState v' = preDotOf b1) ->
                   Scanned (len rest) (c :: body ++ sl) v').
        { intros v' H1 H2 H3 H4. split; [exact H1|]. right.
          exists (c :: body), sl. rewrite len_cons. shape. }
        destruct (decide (c = CHAR_DOT)) as [->|Hdot].
        -- destruct Hd as [(Hnd & Hs & Hp)|(b1 & r & -> & Hr & Hs & Hp)].
           ++ rewrite Hs. simpl. apply Hshape; auto. right.
              exists [], body. rewrite len_nil. shape.
           ++ pose proof (len_nonneg b1) as Hb1.
              destruct (Z.eqb_spec (Path.startDot v) (-1)) as [E'|E']; [lia|].
              assert (Hres : exists b1' r',
                         CHAR_DOT :: b1 ++ CHAR_DOT :: r = b1' ++ CHAR_DOT :: r'
                         /\ noDot r'
                         /\ Path.startDot v = len rest + len b1'
                         /\ 1 = preDotOf b1').
              { exists (CHAR_DOT :: b1), r. rewrite len_cons. shape. }
              destruct Hres as (b1' & r' & Q1 & Q2 & Q3 & Q4).
              destruct (Z.eqb_spec (Path.preDotState v) 1) as [E2|E2]; simpl.
              ** apply Hshape; auto. right. exists b1', r'.
                 split_and!; auto; congruence.
              ** apply Hshape; auto. right. exists b1', r'. shape.
        -- destruct Hd as [(Hnd & Hs & Hp)|(b1 & r & -> & Hr & Hs & Hp)].
           ++ rewrite Hs. simpl. apply Hshape; auto. left. shape.
           ++ pose proof (len_nonneg b1) as Hb1.
              destruct (Z.eqb_spec (Path.startDot v) (-1)) as [E'|E']; [lia|].
              simpl. apply Hshape; auto. right. exists (c :: b1), r.
              rewrite len_cons. shape.
              simpl. destruct (decide (c = CHAR_DOT)); congruence.
Qed.

Lemma extname_final (path : jsstring) :
  Final path (Path.extname_loop (rev path) Path.extname_init).
Proof.
  pose proof (extname_loop_final (rev path) [] Path.extname_init) as H.
  rewrite rev_involutive, app_nil_r in H. apply H. apply Scanned_start.
Qed.

(** A non-empty result of [extname] is a dot and the code units after
    it, none of which is a dot or a slash; it is followed in the path by
    slashes only. *)
Lemma extname_shape (path : jsstring) :
  Path.extname path <> [] ->
  exists pre r sl,
    path = pre ++ (CHAR_DOT :: r) ++ sl
    /\ Path.extname path = CHAR_DOT :: r
    /\ noDot r /\ noSlash r /\ allSlash sl.
Proof.
  unfold Path.extname. intros Hne.
  destruct (extname_final path)
    as [[_ Hv]|(pre & body & sl & Hp & Hb & Hns & Hsl & _ & _ & He & Hd)].
  { simpl in Hne. rewrite Hv in Hne. simpl in Hne. congruence. }
  set (v := Path.extname_loop (rev path) Path.extname_init) in *.
  destruct Hd as [(_ & Hs & _)|(b1 & r & -> & Hr & Hs & _)].
  { unfold Path.extname_none in Hne. rewrite Hs in Hne. simpl in Hne.
    congruence. }
  destruct (Path.extname_none v); [congruence|].
  exists (pre ++ b1), r, sl.
  assert (Hpath : path = (pre ++ b1) ++ (CHAR_DOT :: r) ++ sl).
  { rewrite Hp. rewrite <- !app_assoc. reflexivity. }
  split_and!; auto.
  - rewrite Hs, He. rewrite Hpath at 1.
    replace (len pre + len b1) with (len (pre ++ b1)) by apply len_app.
    replace (len pre + len (b1 ++ CHAR_DOT :: r))
      with (len (pre ++ b1) + len (CHAR_DOT :: r))
      by (rewrite !len_app; lia).
    apply slice_middle.
  - unfold noSlash in *. rewrite Forall_app, Forall_cons in Hns. tauto.
Qed.

Lemma split_first_unique {A} (P : A -> Prop) (y1 y2 x1 x2 : list A) a b :
  y1 ++ a :: x1 = y2 ++ b :: x2 ->
  P a -> P b ->
  Forall (fun c => ~ P c) y1 -> Forall (fun c => ~ P c) y2 ->
  y1 = y2 /\ a = b /\ x1 = x2.
Proof.
  revert y2. induction y1 as [|c y1 IH]; intros [|d y2] E Pa Pb F1 F2;
    simpl in E; inversion E; subst.
  - auto.
  - inversion F2; subst. contradiction.
  - inversion F1; subst. contradiction.
  - inversion F1; inversion F2; subst.
    destruct (IH y2) as (-> & -> & ->); auto.
Qed.

Lemma split_last_unique {A} (P : A -> Prop) (x1 x2 y1 y2 : list A) a b :
  x1 ++ a :: y1 = x2 ++ b :: y2 ->
  P a -> P b ->
  Forall (fun c => ~ P c) y1 -> Forall (fun c => ~ P c) y2 ->
  x1 = x2 /\ a = b /\ y1 = y2.
Proof.
  intros E Pa Pb F1 F2. apply (f_equal (@rev A)) in E.
  rewrite !rev_app_distr in E. simpl in E. rewrite <- !app_assoc in E.
  simpl in E.
  destruct (split_first_unique P (rev y1) (rev y2) (rev x1) (rev x2) a b)
    as (E1 & E2 & E3); auto.
  - apply Forall_rev. exact F1.
  - apply Forall_rev. exact F2.
  - apply (f_equal (@rev A)) in E1, E3. rewrite !rev_involutive in E1, E3.
    auto.
Qed.

Lemma noSlash_last_component (p body pre T : jsstring) :
  p ++ body = pre ++ T ->
  (p = [] \/ exists p', p = p' ++ [CHAR_FORWARD_SLASH]) ->
  noSlash T ->
  exists l, body = l ++ T.
Proof.
  intros E Hp HT. apply app_eq_app in E.
  destruct E as [l [[E1 E2]|[E1 E2]]]; [|eauto].
  destruct l as [|x l _] using rev_ind.
  { exists []. simpl in E2. auto. }
  exfalso. destruct Hp as [->|[p' ->]].
  - symmetry in E1. apply app_eq_nil in E1 as [_ E1].
    apply app_eq_nil in E1 as [_ E1]. discriminate.
  - rewrite app_assoc in E1. apply app_inj_tail in E1 as [_ <-].
    subst T. unfold noSlash in HT.
    rewrite !Forall_app, Forall_cons in HT. tauto.
Qed.

(** Appending an extension to a path that does not end in a slash gives
    a path with that extension; when the extension is the lone dot, the
    path must not end in a dot either. *)
Lemma extname_append (pre : jsstring) (c : ascii) (r : jsstring) :
  c <> CHAR_FORWARD_SLASH -> c <> CHAR_DOT \/ r <> [] ->
  noDot r -> noSlash r ->
  Path.extname (pre ++ c :: CHAR_DOT :: r) = CHAR_DOT :: r.
Proof.
  intros Hc Hcd Hr Hrs.
  set (T := c :: CHAR_DOT :: r). set (path := pre ++ T).
  assert (HT : noSlash T) by (repeat constructor; auto; discriminate).
  unfold Path.extname.
  destruct (extname_final path)
    as [[Hall _]|(p & body & sl & Hp & Hb & Hns & Hsl & Hpre & Hsp & He & Hd)].
  { exfalso. unfold path, T, allSlash in Hall.
    rewrite Forall_app, Forall_cons in Hall. tauto. }
  set (v := Path.extname_loop (rev path) Path.extname_init) in *.
  (* no trailing slash *)
  assert (Hsl0 : sl = [] /\ p ++ body = pre ++ T).
  { destruct (exists_last Hb) as (body' & z & ->).
    assert (HTne : T <> []) by discriminate.
    destruct (exists_last HTne) as (T' & w & HT').
    assert (Hz : z <> CHAR_FORWARD_SLASH).
    { unfold noSlash in Hns. rewrite Forall_app, Forall_cons in Hns. tauto. }
    assert (Hw : w <> CHAR_FORWARD_SLASH).
    { rewrite HT' in HT. unfold noSlash in HT.
      rewrite Forall_app, Forall_cons in HT. tauto. }
    destruct (split_last_unique (fun x => x <> CHAR_FORWARD_SLASH)
                (p ++ body') (pre ++ T') sl [] z w) as (E1 & E2 & E3); auto.
    - rewrite <- !app_assoc. simpl.
      transitivity path; [|unfold path; rewrite HT'; reflexivity].
      rewrite Hp, <- app_assoc. reflexivity.
    - eapply Forall_impl; [exact Hsl|]. simpl. intros a -> Ha. auto.
    - split; [exact E3|]. subst sl. rewrite app_nil_r in Hp.
      rewrite <- Hp. reflexivity. }
  destruct Hsl0 as [-> Hpb].
  destruct (noSlash_last_component p body pre T Hpb Hpre HT) as [l Hl].
  destruct Hd as [(Hnd & _ & _)|(b1 & r' & Hbody & Hr' & Hs & Hpd)].
  { exfalso. rewrite Hl in Hnd. unfold noDot, T in Hnd.
    rewrite Forall_app, !Forall_cons in Hnd. tauto. }
  destruct (split_last_unique (fun x => x = CHAR_DOT)
              b1 (l ++ [c]) r' r CHAR_DOT CHAR_DOT) as (E1 & _ & E3); auto.
  { rewrite <- Hbody, Hl. unfold T. rewrite <- app_assoc. reflexivity. }
  subst b1 r'.
  assert (Hnone : Path.extname_none v = false).
  { unfold Path.extname_none. rewrite Hs, He, Hsp, Hpd, Hbody.
    rewrite !len_app, !len_cons, len_nil.
    pose proof (len_nonneg p). pose proof (len_nonneg l).
    pose proof (len_nonneg r).
    assert (Hlone : c <> CHAR_DOT \/ 0 < len r).
    { destruct Hcd as [?|Hrne]; [auto|right].
      destruct r; [congruence|rewrite len_cons; pose proof (len_nonneg r); lia]. }
    destruct l as [|x l]; simpl.
    - rewrite len_nil.
      destruct (decide (c = CHAR_DOT)); [destruct Hlone; [contradiction|]|];
      repeat (match goal with
              | |- context [?a =? ?b] => destruct (Z.eqb_spec a b); try lia
              end; simpl); auto.
    - rewrite len_cons. pose proof (len_nonneg l).
      destruct (decide (x = CHAR_DOT));
      repeat (match goal with
              | |- context [?a =? ?b] => destruct (Z.eqb_spec a b); try lia
              end; simpl); auto. }
  rewrite Hnone, Hs, He.
  assert (Hpath : path = (p ++ l ++ [c]) ++ (CHAR_DOT :: r) ++ []).
  { rewrite Hp, Hbody, !app_nil_r. rewrite <- !app_assoc. reflexivity. }
  rewrite Hpath at 1.
  replace (len p + len (l ++ [c])) with (len (p ++ l ++ [c]))
    by apply len_app.
  replace (len p + len body) with (len (p ++ l ++ [c]) + len (CHAR_DOT :: r))
    by (rewrite Hbody, !len_app; lia).
  apply slice_middle.
Qed.

(** ** [lastIndexOf] *)

Lemma startsWith_spec (s p : jsstring) :
  startsWith s p = true <-> exists rest, s = p ++ rest.
Proof.
  revert s. induction p as [|c p IH]; intros s; simpl.
  - split; [intros _; exists s; reflexivity|reflexivity].
  - destruct s as [|d s].
    + split; [discriminate|]. intros [rest E]. discriminate.
    + destruct (decide (c = d)) as [->|Hne].
      * rewrite IH. split; intros [rest E]; exists rest; congruence.
      * split; [discriminate|]. intros [rest E]. congruence.
Qed.

Lemma lastIndexOf_from_found (s pat : jsstring) (k0 k : nat) :
  (k0 <= k)%nat ->
  startsWith (drop k0 s) pat = true ->
  (forall j, (k0 < j <= k)%nat -> startsWith (drop j s) pat = false) ->
  lastIndexOf_from s pat k = Z.of_nat k0.
Proof.
  induction k as [|k IH]; intros Hk H0 Hlater; simpl.
  - assert (k0 = 0%nat) as -> by lia. now rewrite H0.
  - destruct (decide (k0 = S k)) as [->|Hne].
    + now rewrite H0.
    + rewrite (Hlater (S k)) by lia. apply IH; [lia|exact H0|].
      intros j Hj. apply Hlater. lia.
Qed.

(** An extension followed by slashes only is found by [lastIndexOf]
    where it starts. *)
Lemma lastIndexOf_ext (pre ext sl : jsstring) :
  ext <> [] -> noSlash ext -> allSlash sl ->
  lastIndexOf (pre ++ ext ++ sl) ext = len pre.
Proof.
  intros Hne Hns Hsl. unfold lastIndexOf.
  rewrite !length_app.
  destruct (Nat.ltb_spec (length pre + (length ext + length sl)) (length ext));
    [lia|].
  apply lastIndexOf_from_found.
  - lia.
  - rewrite drop_app_length. apply startsWith_spec. eauto.
  - intros j Hj.
    destruct (startsWith (drop j (pre ++ ext ++ sl)) ext) eqn:E; [|reflexivity].
    exfalso. apply startsWith_spec in E as [rest E].
    destruct (exists_last Hne) as (ext' & z & ->).
    assert (Hz : z <> CHAR_FORWARD_SLASH).
    { unfold noSlash in Hns. rewrite Forall_app, Forall_cons in Hns. tauto. }
    assert (Hlook : drop j (pre ++ (ext' ++ [z]) ++ sl) !! length ext' = Some z).
    { rewrite E, <- app_assoc. simpl. now apply list_lookup_middle. }
    rewrite lookup_drop in Hlook.
    rewrite lookup_app_r in Hlook by lia.
    rewrite lookup_app_r in Hlook by (rewrite length_app; simpl; lia).
    unfold allSlash in Hsl. rewrite Forall_lookup in Hsl.
    apply Hsl in Hlook. contradiction.
Qed.

(** ** Fixes applied to a specifier literal *)

Lemma applyFix_replace (a b c text : jsstring) :
  applyFix (a ++ b ++ c) (mkFix (len a, len a + len b) text)
  = a ++ text ++ c.
Proof.
  unfold applyFix. simpl. rewrite slice_prefix.
  replace (len a + len b) with (len (a ++ b)) by apply len_app.
  rewrite (app_assoc a b c). now rewrite sliceFrom_suffix.
Qed.

Lemma applyFix_insert (a b text : jsstring) :
  applyFix (a ++ b) (mkFix (len a, len a) text) = a ++ text ++ b.
Proof.
  pose proof (applyFix_replace a [] b text) as H.
  rewrite len_nil, Z.add_0_r in H. exact H.
Qed.

Lemma applyFix_remove (a b c : jsstring) :
  applyFix (a ++ b ++ c) (mkFix (len a, len a + len b) []) = a ++ c.
Proof. apply applyFix_replace. Qed.

(** A fix whose range lies between the quotes of the literal of [t]
    rewrites the source text as [fixedName] rewrites the specifier. *)
Lemma fixedName_in_code (code : jsstring) (q : ascii) (t : Target)
    (pre post : jsstring) (f : Fix) :
  SpecifierAt code q t pre post ->
  fst (range (node t)) + 1 <= fst (fix_range f) ->
  fst (fix_range f) <= snd (fix_range f) ->
  snd (fix_range f) <= snd (range (node t)) - 1 ->
  applyFix code f = pre ++ q :: fixedName t f ++ q :: post.
Proof.
  intros [-> Hr]. destruct f as [[a b] text]. rewrite Hr. simpl.
  intros Ha Hab Hb. unfold fixedName. rewrite Hr. simpl.
  pose proof (len_nonneg pre) as Hpre.
  set (n := name t) in *.
  set (i := Z.to_nat (a - (len pre + 1))).
  set (j := Z.to_nat (b - (len pre + 1))).
  assert (Hij : (i <= j <= length n)%nat) by (unfold len in *; lia).
  set (x := take i n). set (y := take (j - i) (drop i n)). set (z := drop j n).
  assert (Hn : n = x ++ y ++ z).
  { unfold x, y, z. replace j with (i + (j - i))%nat at 2 by lia.
    rewrite <- drop_drop. now rewrite !take_drop. }
  assert (Hx : len x = a - (len pre + 1)).
  { unfold len, x. rewrite length_take. unfold i, j, len in *. lia. }
  assert (Hy : len y = b - a).
  { unfold len, y. rewrite length_take, length_drop.
    unfold i, j, len in *. lia. }
  rewrite Hn at 2.
  replace (a - (len pre + 1)) with (len x) by lia.
  replace (b - (len pre + 1)) with (len x + len y) by lia.
  rewrite applyFix_replace.
  replace (pre ++ q :: n ++ q :: post)
    with ((pre ++ q :: x) ++ y ++ (z ++ q :: post))
    by (rewrite Hn; repeat first [rewrite <- app_assoc | progress simpl];
        reflexivity).
  replace a with (len (pre ++ q :: x)) by (rewrite len_app, len_cons; lia).
  replace b with (len (pre ++ q :: x) + len y)
    by (rewrite len_app, len_cons; lia).
  rewrite applyFix_replace.
  repeat first [rewrite <- app_assoc | progress simpl]. reflexivity.
Qed.

(** ** The rule *)

Lemma hasPathSeparator_spec (name : jsstring) :
  hasPathSeparator name = true
  <-> CHAR_FORWARD_SLASH ∈ name \/ CHAR_BACKWARD_SLASH ∈ name.
Proof.
  unfold hasPathSeparator. rewrite existsb_exists. split.
  - intros (c & Hin & Hc). apply list_elem_of_In in Hin.
    unfold isSeparator in Hc. apply orb_true_iff in Hc as [Hc|Hc];
      apply bool_decide_eq_true in Hc; subst; auto.
  - intros [H|H]; apply list_elem_of_In in H; eexists; (split; [exact H|]);
      reflexivity.
Qed.

Lemma truthy_spec (s : jsstring) : truthy s = true <-> s <> [].
Proof. destruct s; simpl; split; congruence. Qed.

Section Properties.

Variable readdirSync : jsstring -> Completion (list jsstring).
Variable defaultStyle : Style.
Variable overrideStyle : gmap jsstring OptionValue.

Local Abbreviation discover := (getExistingExtensions readdirSync).
Local Abbreviation check := (verify readdirSync defaultStyle overrideStyle).

(** The discovery never throws. *)
Lemma getExistingExtensions_normal (filePath : jsstring) :
  exists exts, discover filePath = Normal exts.
Proof.
  unfold getExistingExtensions.
  destruct (readdirSync (Path.dirname filePath)); simpl; eauto.
Qed.

(** [verify] on a target that passes its first guard: the decision on
    the canonical extension, when there is one. *)
Lemma verify_canonical (t : Target) (fp : jsstring) (exts : list jsstring) :
  filePath t = Some fp ->
  truthy fp = true ->
  hasPathSeparator (name t) = true ->
  discover fp = Normal exts ->
  check t =
    Normal
      match canonicalExtension (Path.extname fp) exts with
      | Some ext => verifyExtension defaultStyle overrideStyle t exts ext
      | None => None
      end.
Proof.
  unfold verify. intros -> -> -> ->. simpl.
  destruct (Path.extname fp) as [|c e]; simpl.
  - destruct exts as [|e1 [|e2 exts]]; reflexivity.
  - reflexivity.
Qed.

Lemma verify_inv (t : Target) (d : Descriptor) :
  check t = Normal (Some d) ->
  exists fp exts ext,
    filePath t = Some fp /\ truthy fp = true
    /\ hasPathSeparator (name t) = true
    /\ discover fp = Normal exts
    /\ canonicalExtension (Path.extname fp) exts = Some ext
    /\ verifyExtension defaultStyle overrideStyle t exts ext = Some d.
Proof.
  intros H. destruct (filePath t) as [fp|] eqn:Hfp.
  2:{ unfold verify in H. rewrite Hfp in H. discriminate. }
  destruct (truthy fp) eqn:Htr.
  2:{ unfold verify in H. rewrite Hfp, Htr in H. discriminate. }
  destruct (hasPathSeparator (name t)) eqn:Hsep.
  2:{ unfold verify in H. rewrite Hfp, Htr, Hsep in H.
      discriminate. }
  destruct (getExistingExtensions_normal fp) as [exts Hex].
  rewrite (verify_canonical t fp exts) in H by assumption.
  exists fp, exts.
  destruct (canonicalExtension (Path.extname fp) exts) as [ext|];
    [|discriminate].
  exists ext. split_and!; auto. congruence.
Qed.

Lemma canonicalExtension_Some (resolvedExt : jsstring) exts ext :
  canonicalExtension resolvedExt exts = Some ext ->
  (resolvedExt <> [] /\ ext = resolvedExt)
  \/ (resolvedExt = [] /\ exts = [ext]).
Proof.
  destruct resolvedExt; simpl.
  - destruct exts as [|e [|e' exts]]; try discriminate.
    intros [= ->]. auto.
  - intros [= <-]. left. split; [discriminate|reflexivity].
Qed.

Lemma verify_bare (t : Target) :
  hasPathSeparator (name t) = false -> check t = Normal None.
Proof.
  intros Hsep. unfold verify. rewrite Hsep.
  destruct (filePath t); [|reflexivity].
  now rewrite orb_true_r.
Qed.

(** C1: a diagnostic is emitted only for a target whose specifier
    contains a path separator ([/] or [\]), whose resolved path is
    present, and whose canonical extension can be determined (the
    resolved path has a non-empty extension, or the discovery found
    exactly one extension); a bare specifier never gets one. *)
Theorem diagnostic_only_when_determinable (t : Target) :
  (forall d,
      check t = Normal (Some d) ->
      (CHAR_FORWARD_SLASH ∈ name t \/ CHAR_BACKWARD_SLASH ∈ name t)
      /\ exists fp exts,
           filePath t = Some fp /\ fp <> []
           /\ discover fp = Normal exts
           /\ (Path.extname fp <> [] \/ length exts = 1%nat))
  /\ (hasPathSeparator (name t) = false -> check t = Normal None).
Proof.
  split.
  - intros d H.
    destruct (verify_inv t d H)
      as (fp & exts & ext & Hfp & Htr & Hsep & Hex & Hcan & _).
    split; [now apply hasPathSeparator_spec|].
    exists fp, exts. split_and!; auto; [now apply truthy_spec|].
    apply canonicalExtension_Some in Hcan as [[? _]|[_ ->]]; auto.
  - apply verify_bare.
Qed.

(** C2: for a target past the guards on the resolved path and on the
    separator, a non-empty extension of the resolved path is the
    canonical one whatever the discovery found; without it, the only
    discovered extension is, and the target is skipped when the
    discovery found none or several. *)
Theorem canonical_extension_resolution (t : Target) (fp : jsstring)
    (exts : list jsstring) :
  filePath t = Some fp ->
  truthy fp = true ->
  hasPathSeparator (name t) = true ->
  discover fp = Normal exts ->
  (Path.extname fp <> [] ->
   check t =
     Normal (verifyExtension defaultStyle overrideStyle t exts
               (Path.extname fp)))
  /\ (Path.extname fp = [] ->
      forall e, exts = [e] ->
      check t = Normal (verifyExtension defaultStyle overrideStyle t exts e))
  /\ (Path.extname fp = [] -> length exts <> 1%nat ->
      check t = Normal None).
Proof.
  intros Hfp Htr Hsep Hex.
  rewrite (verify_canonical t fp exts Hfp Htr Hsep Hex).
  split_and!.
  - intros Hne. destruct (Path.extname fp); [congruence|reflexivity].
  - intros -> e ->. reflexivity.
  - intros -> Hlen. destruct exts as [|e1 [|e2 exts]]; simpl in *;
      congruence.
Qed.

Lemma verifyExtension_always (t : Target) exts ext :
  effectiveStyle defaultStyle overrideStyle ext = StyleValue always ->
  verifyExtension defaultStyle overrideStyle t exts ext =
    if decide (ext = Path.extname (name t)) then None
    else Some (requireExtReport t exts ext).
Proof.
  intros Hst. unfold verifyExtension, requireExtReport. rewrite Hst. simpl.
  destruct (decide (ext = Path.extname (name t))) as [E|E].
  - rewrite (bool_decide_eq_true_2 _ E). reflexivity.
  - rewrite (bool_decide_eq_false_2 _ E). simpl.
    unfold Fixer.insertTextBeforeRange.
    simpl. destruct (Nat.eqb_spec (length exts) 1);
      destruct (decide (length exts = 1%nat)); try lia; reflexivity.
Qed.

Lemma verifyExtension_never (t : Target) exts ext :
  effectiveStyle defaultStyle overrideStyle ext = StyleValue never ->
  verifyExtension defaultStyle overrideStyle t exts ext =
    if decide (ext = Path.extname (name t))
    then Some (forbidExtReport t exts ext)
    else None.
Proof.
  intros Hst. unfold verifyExtension, forbidExtReport. rewrite Hst. simpl.
  destruct (decide (ext = Path.extname (name t))) as [E|E].
  - rewrite (bool_decide_eq_true_2 _ E). simpl. unfold Fixer.removeRange.
    destruct (Nat.eqb_spec (length exts) 1);
      destruct (decide (length exts = 1%nat)); try lia; reflexivity.
  - rewrite (bool_decide_eq_false_2 _ E). reflexivity.
Qed.

(** C3: under the effective style [always], a target with canonical
    extension [ext] gets the diagnostic [requireExt] with data [ext]
    exactly when the extension of its specifier differs from [ext],
    and none when they are equal; the fix, when there is one, inserts
    [ext] at offset [node.range[1] - 1], just before the closing quote
    of the literal. *)
Theorem always_requires_extension (t : Target) (fp : jsstring)
    (exts : list jsstring) (ext : jsstring) :
  filePath t = Some fp ->
  truthy fp = true ->
  hasPathSeparator (name t) = true ->
  discover fp = Normal exts ->
  canonicalExtension (Path.extname fp) exts = Some ext ->
  effectiveStyle defaultStyle overrideStyle ext = StyleValue always ->
  (Path.extname (name t) <> ext
   <-> check t = Normal (Some (requireExtReport t exts ext)))
  /\ (Path.extname (name t) = ext -> check t = Normal None)
  /\ (forall f, fix_ (requireExtReport t exts ext) = Some f ->
      f = Fixer.insertTextBeforeRange
            (snd (range (node t)) - 1, snd (range (node t)) - 1) ext
      /\ forall code q pre post,
          SpecifierAt code q t pre post ->
          applyFix code f = pre ++ q :: (name t ++ ext) ++ q :: post).
Proof.
  intros Hfp Htr Hsep Hex Hcan Hst.
  rewrite (verify_canonical t fp exts Hfp Htr Hsep Hex), Hcan.
  rewrite (verifyExtension_always t exts ext Hst).
  split_and!.
  - destruct (decide (ext = Path.extname (name t))); split; intros H;
      congruence.
  - intros <-. destruct (decide _); [reflexivity|congruence].
  - intros f Hf. unfold requireExtReport in Hf. simpl in Hf.
    destruct (decide _); [|discriminate]. injection Hf as <-.
    split; [reflexivity|]. intros code q pre post [-> Hr]. rewrite Hr.
    simpl.
    replace (len pre + len (name t) + 2 - 1)
      with (len (pre ++ q :: name t))
      by (rewrite len_app, len_cons; lia).
    replace (pre ++ q :: name t ++ q :: post)
      with ((pre ++ q :: name t) ++ q :: post)
      by (rewrite <- app_assoc; reflexivity).
    rewrite applyFix_insert. rewrite <- !app_assoc. reflexivity.
Qed.

(** C4: under the effective style [never], a target with canonical
    extension [ext] gets the diagnostic [forbidExt] with data [ext]
    exactly when the extension of its specifier is [ext]; the fix,
    when there is one, removes the offsets from
    [node.range[0] + 1 + name.lastIndexOf(ext)] to that plus
    [ext.length]. *)
Theorem never_forbids_extension (t : Target) (fp : jsstring)
    (exts : list jsstring) (ext : jsstring) :
  filePath t = Some fp ->
  truthy fp = true ->
  hasPathSeparator (name t) = true ->
  discover fp = Normal exts ->
  canonicalExtension (Path.extname fp) exts = Some ext ->
  effectiveStyle defaultStyle overrideStyle ext = StyleValue never ->
  (Path.extname (name t) = ext
   <-> check t = Normal (Some (forbidExtReport t exts ext)))
  /\ (Path.extname (name t) <> ext -> check t = Normal None)
  /\ (forall f, fix_ (forbidExtReport t exts ext) = Some f ->
      let start := fst (range (node t)) + 1 + lastIndexOf (name t) ext in
      f = Fixer.removeRange (start, start + len ext)).
Proof.
  intros Hfp Htr Hsep Hex Hcan Hst.
  rewrite (verify_canonical t fp exts Hfp Htr Hsep Hex), Hcan.
  rewrite (verifyExtension_never t exts ext Hst).
  split_and!.
  - destruct (decide (ext = Path.extname (name t))); split; intros H;
      congruence.
  - intros Hne. destruct (decide _); [congruence|reflexivity].
  - intros f Hf. unfold forbidExtReport in Hf. simpl in Hf.
    destruct (decide _); [|discriminate]. injection Hf as <-. reflexivity.
Qed.

(** C5: a diagnostic of either style carries no fix when the discovery
    did not find exactly one extension, wherever the canonical
    extension came from. *)
Theorem no_fix_unless_one_sibling (t : Target) (fp : jsstring)
    (exts : list jsstring) (d : Descriptor) :
  filePath t = Some fp ->
  discover fp = Normal exts ->
  length exts <> 1%nat ->
  check t = Normal (Some d) ->
  fix_ d = None.
Proof.
  intros Hfp Hex Hlen H.
  destruct (verify_inv t d H)
    as (fp' & exts' & ext & Hfp' & _ & _ & Hex' & _ & Hv).
  assert (fp' = fp) as -> by congruence.
  assert (exts' = exts) as -> by congruence.
  unfold verifyExtension in Hv.
  destruct (Nat.eqb_spec (length exts) 1) as [E|_]; [contradiction|].
  simpl in Hv.
  repeat match type of Hv with
         | (if ?b then _ else _) = _ => destruct b
         end; try discriminate; injection Hv as <-; reflexivity.
Qed.

(** C7: when the directory of the path cannot be listed, whatever the
    error, the discovery returns the empty sequence and does not
    throw. *)
Theorem discovery_soft_fail (filePath : jsstring) (e : JsError) :
  readdirSync (Path.dirname filePath) = Throw e ->
  discover filePath = Normal [].
Proof.
  intros H. unfold getExistingExtensions. rewrite H. reflexivity.
Qed.

Lemma SpecifierAt_LiteralRange code q t pre post :
  SpecifierAt code q t pre post -> LiteralRange t.
Proof. intros [_ Hr]. unfold LiteralRange. rewrite Hr. simpl. lia. Qed.

(** What a diagnostic says about its target. *)
Lemma report_inv (t : Target) (d : Descriptor) :
  check t = Normal (Some d) ->
  exists fp exts,
    filePath t = Some fp /\ truthy fp = true
    /\ hasPathSeparator (name t) = true
    /\ discover fp = Normal exts
    /\ canonicalExtension (Path.extname fp) exts = Some (data_ext d)
    /\ ((effectiveStyle defaultStyle overrideStyle (data_ext d)
         = StyleValue always
         /\ data_ext d <> Path.extname (name t)
         /\ d = requireExtReport t exts (data_ext d))
        \/ (effectiveStyle defaultStyle overrideStyle (data_ext d)
            = StyleValue never
            /\ data_ext d = Path.extname (name t)
            /\ d = forbidExtReport t exts (data_ext d))).
Proof.
  intros H.
  destruct (verify_inv t d H)
    as (fp & exts & ext & Hfp & Htr & Hsep & Hex & Hcan & Hv).
  exists fp, exts.
  destruct (effectiveStyle defaultStyle overrideStyle ext)
    as [[|]|l] eqn:Hst.
  - rewrite (verifyExtension_always t exts ext Hst) in Hv.
    destruct (decide _) as [|Hne]; [discriminate|]. injection Hv as <-.
    simpl. split_and!; auto.
  - rewrite (verifyExtension_never t exts ext Hst) in Hv.
    destruct (decide _) as [He|]; [|discriminate]. injection Hv as <-.
    simpl. split_and!; auto.
  - unfold verifyExtension in Hv. rewrite Hst in Hv. simpl in Hv.
    discriminate.
Qed.

(** C9, as the code has it: in the branch of the style [never], a fix
    built for a non-empty canonical extension finds that extension in
    the specifier followed by slashes only, [lastIndexOf] gives the
    non-negative offset [name.length - ext.length] less the number of
    these slashes, the removed range lies inside the literal between
    its quotes, and the fixed literal is the specifier without the
    code units of its extension. *)
Theorem never_fix_removes_extension (t : Target) (d : Descriptor) (f : Fix) :
  check t = Normal (Some d) ->
  messageId d = forbidExt ->
  fix_ d = Some f ->
  data_ext d <> [] ->
  exists stem sl,
    name t = stem ++ data_ext d ++ sl
    /\ allSlash sl
    /\ data_ext d = Path.extname (name t)
    /\ lastIndexOf (name t) (data_ext d)
       = len (name t) - len (data_ext d) - len sl
    /\ 0 <= lastIndexOf (name t) (data_ext d)
    /\ f = mkFix (fst (range (node t)) + 1 + len stem,
                  fst (range (node t)) + 1 + len stem + len (data_ext d))
                 []
    /\ fixedName t f = stem ++ sl
    /\ (LiteralRange t ->
        fst (range (node t)) + 1 <= fst (fix_range f)
        /\ snd (fix_range f) = snd (range (node t)) - 1 - len sl)
    /\ (forall code q pre post,
           SpecifierAt code q t pre post ->
           applyFix code f = pre ++ q :: (stem ++ sl) ++ q :: post).
Proof.
  intros H Hm Hf Hne.
  destruct (report_inv t d H)
    as (fp & exts & _ & _ & _ & _ & _ & [(_ & _ & Hd)|(_ & He & Hd)]).
  { rewrite Hd in Hm. discriminate. }
  set (ext := data_ext d) in *.
  assert (Hext : Path.extname (name t) <> []) by congruence.
  destruct (extname_shape (name t) Hext)
    as (stem & r & sl & Hname & Hr & Hnd & Hns & Hsl).
  rewrite <- He in Hr.
  assert (Hidx : lastIndexOf (name t) ext = len stem).
  { rewrite Hname, <- Hr. apply lastIndexOf_ext; auto.
    rewrite Hr. constructor; [discriminate|exact Hns]. }
  rewrite Hd in Hf. unfold forbidExtReport in Hf. simpl in Hf.
  destruct (decide _); [|discriminate]. injection Hf as <-.
  fold ext. rewrite Hidx.
  pose proof (len_nonneg stem). pose proof (len_nonneg sl).
  pose proof (len_nonneg ext).
  assert (Hlen : len (name t) = len stem + len ext + len sl).
  { rewrite Hname, <- Hr, !len_app. lia. }
  exists stem, sl. split_and!; auto; try lia.
  - rewrite Hname, Hr. reflexivity.
  - unfold fixedName. simpl.
    replace (fst (range (node t)) + 1 + len stem
             - (fst (range (node t)) + 1)) with (len stem) by lia.
    replace (fst (range (node t)) + 1 + len stem + len ext
             - (fst (range (node t)) + 1)) with (len stem + len ext) by lia.
    rewrite Hname, <- Hr. apply applyFix_remove.
  - unfold LiteralRange. intros HL. simpl. lia.
  - intros code q pre post [-> Hrange]. rewrite Hrange. simpl.
    rewrite Hname, <- Hr.
    replace (pre ++ q :: (stem ++ ext ++ sl) ++ q :: post)
      with ((pre ++ q :: stem) ++ ext ++ (sl ++ q :: post))
      by (repeat first [rewrite <- app_assoc | progress simpl]; reflexivity).
    replace (len pre + 1 + len stem) with (len (pre ++ q :: stem))
      by (rewrite len_app, len_cons; lia).
    rewrite applyFix_remove.
    repeat first [rewrite <- app_assoc | progress simpl]. reflexivity.
Qed.

(** Every discovered extension is the [extname] of a directory
    entry. *)
Lemma discover_extnames (fp : jsstring) (exts : list jsstring) (e : jsstring) :
  discover fp = Normal exts -> e ∈ exts ->
  exists filename, e = Path.extname filename.
Proof.
  unfold getExistingExtensions.
  destruct (readdirSync (Path.dirname fp)) as [entries|err]; simpl;
    intros [= <-] Hin.
  - apply list_elem_of_In, in_map_iff in Hin as (filename & <- & _). eauto.
  - inversion Hin.
Qed.

Lemma canonical_is_extname (fp : jsstring) exts ext :
  discover fp = Normal exts ->
  canonicalExtension (Path.extname fp) exts = Some ext ->
  exists p, ext = Path.extname p.
Proof.
  intros Hex Hcan.
  apply canonicalExtension_Some in Hcan as [[_ ->]|[_ ->]]; [eauto|].
  apply (discover_extnames fp [ext] ext Hex). constructor.
Qed.

Lemma hasPathSeparator_app (a b : jsstring) :
  hasPathSeparator (a ++ b) = hasPathSeparator a || hasPathSeparator b.
Proof. apply existsb_app. Qed.

End Properties.

(** ** Options *)

Lemma verifyExtension_style (defaultStyle defaultStyle' : Style)
    (overrideStyle overrideStyle' : gmap jsstring OptionValue)
    (t : Target) exts ext :
  effectiveStyle defaultStyle overrideStyle ext
  = effectiveStyle defaultStyle' overrideStyle' ext ->
  verifyExtension defaultStyle overrideStyle t exts ext
  = verifyExtension defaultStyle' overrideStyle' t exts ext.
Proof. intros H. unfold verifyExtension. now rewrite H. Qed.

(** No extension is the key [tryExtensions]. *)
Lemma extname_not_tryExtensions (p : jsstring) :
  Path.extname p <> str "tryExtensions".
Proof.
  intros E.
  assert (Hne : Path.extname p <> []) by (rewrite E; discriminate).
  destruct (extname_shape p Hne) as (_ & r & _ & _ & Hr & _).
  rewrite E in Hr. discriminate.
Qed.

(** C6: for a canonical extension that is a key of the overrides, the
    effective style is the value of the override and the target is
    judged as under that style alone; for one that is not, it is the
    default style; and a target exists that passes under the default
    style and gets a diagnostic under a different override. *)
Theorem override_precedence :
  (forall readdirSync defaultStyle overrideStyle t fp exts ext,
      SchemaValid overrideStyle ->
      filePath t = Some fp ->
      truthy fp = true ->
      hasPathSeparator (name t) = true ->
      getExistingExtensions readdirSync fp = Normal exts ->
      canonicalExtension (Path.extname fp) exts = Some ext ->
      (forall v, overrideStyle !! ext = Some v ->
                 exists s,
                   v = StyleValue s
                   /\ effectiveStyle defaultStyle overrideStyle ext
                      = StyleValue s
                   /\ verify readdirSync defaultStyle overrideStyle t
                      = verify readdirSync s ∅ t)
      /\ (overrideStyle !! ext = None ->
          effectiveStyle defaultStyle overrideStyle ext
          = StyleValue defaultStyle
          /\ verify readdirSync defaultStyle overrideStyle t
             = verify readdirSync defaultStyle ∅ t))
  /\ (exists readdirSync t ext d,
         verify readdirSync always ∅ t = Normal None
         /\ verify readdirSync always {[ ext := StyleValue never ]} t
            = Normal (Some d)).
Proof.
  split.
  - intros rd def ov t fp exts ext Hschema Hfp Htr Hsep Hex Hcan.
    assert (Hkey : ext <> str "tryExtensions").
    { destruct (canonical_is_extname rd fp exts ext Hex Hcan) as [p ->].
      apply extname_not_tryExtensions. }
    split.
    + intros v Hv. destruct (Hschema ext v Hv Hkey) as [s ->].
      exists s.
      assert (Hst : effectiveStyle def ov ext = StyleValue s).
      { unfold effectiveStyle. now rewrite Hv. }
      split_and!; auto.
      rewrite !(verify_canonical rd _ _ t fp exts) by assumption.
      rewrite Hcan. f_equal. apply verifyExtension_style.
      rewrite Hst. unfold effectiveStyle. now rewrite lookup_empty.
    + intros Hv.
      assert (Hst : effectiveStyle def ov ext = StyleValue def).
      { unfold effectiveStyle. now rewrite Hv. }
      split; [exact Hst|].
      rewrite !(verify_canonical rd _ _ t fp exts) by assumption.
      rewrite Hcan. f_equal. apply verifyExtension_style.
      rewrite Hst. unfold effectiveStyle. now rewrite lookup_empty.
  - exists fsPlain, targetExt, (str ".js").
    eexists. split; vm_compute; reflexivity.
Qed.

(** ** Virtual files *)

(** C10: when the file name of the run begins with [<], [create]
    returns the empty visitor: no handler is called, no target is
    examined, and the run reports nothing. *)
Theorem virtual_file_skipped (readdirSync : jsstring -> Completion (list jsstring))
    (ProgramNode : Type)
    (getImportExportTargets : Context -> ProgramNode -> Z -> list Target)
    (context : Context) :
  startsWith (getFilename context) [CHAR_LT] = true ->
  create readdirSync ProgramNode getImportExportTargets context = ∅
  /\ forall program,
       run readdirSync ProgramNode getImportExportTargets context program
       = Normal [].
Proof.
  intros H.
  assert (Hc : create readdirSync ProgramNode getImportExportTargets context
               = ∅).
  { unfold create. now rewrite H. }
  split; [exact Hc|]. intros program. unfold run. rewrite Hc.
  now rewrite lookup_empty.
Qed.

(** ** The rule on the sample inputs *)

Example verify_targetNoExt :
  verify fsPlain always ∅ targetNoExt
  = Normal (Some {| d_node := mkNode (7, 12); messageId := requireExt;
                    data_ext := str ".js";
                    fix_ := Some (mkFix (11, 11) (str ".js")) |}).
Proof. vm_compute. reflexivity. Qed.

Example verify_targetExt :
  verify fsPlain never ∅ targetExt
  = Normal (Some {| d_node := mkNode (7, 15); messageId := forbidExt;
                    data_ext := str ".js";
                    fix_ := Some (mkFix (11, 14) []) |}).
Proof. vm_compute. reflexivity. Qed.

Example verify_targetBare : verify fsPlain always ∅ targetBare = Normal None.
Proof. vm_compute. reflexivity. Qed.

(** Two siblings [a.js] and [a.ts]: the resolved path decides, and the
    diagnostic has no fix. *)
Example verify_twins :
  verify fsTwins always ∅ targetNoExt
  = Normal (Some {| d_node := mkNode (7, 12); messageId := requireExt;
                    data_ext := str ".js"; fix_ := None |}).
Proof. vm_compute. reflexivity. Qed.

(** A specifier with a trailing slash: the extension is not at its
    end. *)
Example verify_targetTrailingSlash :
  Path.extname (name targetTrailingSlash) = str ".js"
  /\ verify fsPlain never ∅ targetTrailingSlash
     = Normal (Some {| d_node := mkNode (7, 16); messageId := forbidExt;
                       data_ext := str ".js";
                       fix_ := Some (mkFix (11, 14) []) |})
  /\ lastIndexOf (name targetTrailingSlash) (str ".js") = 3
  /\ len (name targetTrailingSlash) - len (str ".js") = 4
  /\ applyFix codeTrailingSlash (mkFix (11, 14) [])
     = str "import " ++ CHAR_DOUBLE_QUOTE :: str "./a/" ++ [CHAR_DOUBLE_QUOTE].
Proof. vm_compute. repeat split; reflexivity. Qed.

(** A directory import with a trailing slash under [always]: the fixed
    specifier [./a/.js] has no extension, and gets the diagnostic again
    when it is analysed with the resolved path kept. *)
Example verify_targetDirectory :
  verify fsIndex always ∅ targetDirectory
  = Normal (Some {| d_node := mkNode (7, 13); messageId := requireExt;
                    data_ext := str ".js";
                    fix_ := Some (mkFix (12, 12) (str ".js")) |})
  /\ name (fixedTarget targetDirectory (mkFix (12, 12) (str ".js")))
     = str "./a/.js"
  /\ verify fsIndex always ∅
       (fixedTarget targetDirectory (mkFix (12, 12) (str ".js")))
     = Normal (Some {| d_node := mkNode (7, 16); messageId := requireExt;
                       data_ext := str ".js";
                       fix_ := Some (mkFix (15, 15) (str ".js")) |}).
Proof. vm_compute. repeat split; reflexivity. Qed.

(** A run on a real file reports what [verify] reports on its targets,
    in order. *)
Example run_reports :
  run fsPlain (list Target) (fun _ program _ => program)
      (mkContext (str "/p/main.js") None None)
      [targetBare; targetNoExt; targetExt]
  = Normal [ {| d_node := mkNode (7, 12); messageId := requireExt;
                data_ext := str ".js";
                fix_ := Some (mkFix (11, 11) (str ".js")) |} ].
Proof. vm_compute. reflexivity. Qed.

(** ** Counterexamples *)

(** C8 as stated fails: [./a.js.js], resolved to [/p/a.js.js], gets
    [forbidExt] under [never]; the fix leaves [./a.js], whose extension
    is still [.js], and the same diagnostic is given again. *)
Lemma fix_not_idempotent :
  ~ (forall readdirSync defaultStyle overrideStyle t d f,
        LiteralRange t ->
        verify readdirSync defaultStyle overrideStyle t = Normal (Some d) ->
        fix_ d = Some f ->
        verify readdirSync defaultStyle overrideStyle (fixedTarget t f)
        = Normal None).
Proof.
  intros H.
  specialize (H fsDouble never ∅ targetDouble
                (forbidExtReport targetDouble [str ".js"] (str ".js"))
                (mkFix (14, 17) [])).
  vm_compute in H. specialize (H eq_refl eq_refl eq_refl). discriminate.
Qed.

(** C9 as stated fails: in [./a.js/], resolved to [/p/a.js], the
    extension [.js] is not a suffix of the specifier; [lastIndexOf]
    gives 3 and [name.length - ext.length] is 4. *)
Lemma extension_not_suffix :
  ~ (forall readdirSync defaultStyle overrideStyle t d f,
        LiteralRange t ->
        verify readdirSync defaultStyle overrideStyle t = Normal (Some d) ->
        messageId d = forbidExt ->
        fix_ d = Some f ->
        data_ext d <> [] ->
        lastIndexOf (name t) (data_ext d)
        = len (name t) - len (data_ext d)).
Proof.
  intros H.
  specialize (H fsPlain never ∅ targetTrailingSlash
                (forbidExtReport targetTrailingSlash [str ".js"] (str ".js"))
                (mkFix (11, 14) [])).
  vm_compute in H.
  specialize (H eq_refl eq_refl eq_refl eq_refl).
  assert (Hne : str ".js" <> []) by discriminate.
  specialize (H Hne). discriminate.
Qed.

(** ** The theorems at the sample inputs *)

Lemma diagnostic_only_when_determinable_witness :
  ((CHAR_FORWARD_SLASH ∈ name targetNoExt
    \/ CHAR_BACKWARD_SLASH ∈ name targetNoExt)
   /\ exists fp exts,
        filePath targetNoExt = Some fp /\ fp <> []
        /\ getExistingExtensions fsPlain fp = Normal exts
        /\ (Path.extname fp <> [] \/ length exts = 1%nat))
  /\ verify fsPlain always noOverrides targetBare = Normal None.
Proof.
  split.
  - apply (proj1 (diagnostic_only_when_determinable
                    fsPlain always noOverrides targetNoExt)
                 (requireExtReport targetNoExt [str ".js"] (str ".js"))).
    vm_compute. reflexivity.
  - apply (proj2 (diagnostic_only_when_determinable
                    fsPlain always noOverrides targetBare)).
    reflexivity.
Defined.

Lemma canonical_extension_resolution_witness :
  (Path.extname (str "/p/a.js") <> [] ->
   verify fsPlain always noOverrides targetNoExt
   = Normal (verifyExtension always noOverrides targetNoExt [str ".js"]
               (Path.extname (str "/p/a.js"))))
  /\ (Path.extname (str "/p/a.js") = [] ->
      forall e, [str ".js"] = [e] ->
      verify fsPlain always noOverrides targetNoExt
      = Normal (verifyExtension always noOverrides targetNoExt [str ".js"] e))
  /\ (Path.extname (str "/p/a.js") = [] -> length [str ".js"] <> 1%nat ->
      verify fsPlain always noOverrides targetNoExt = Normal None).
Proof.
  apply (canonical_extension_resolution fsPlain always noOverrides targetNoExt
           (str "/p/a.js") [str ".js"]); vm_compute; reflexivity.
Defined.

Lemma always_requires_extension_witness :
  (Path.extname (name targetNoExt) <> str ".js"
   <-> verify fsPlain always noOverrides targetNoExt
       = Normal (Some (requireExtReport targetNoExt [str ".js"] (str ".js"))))
  /\ (Path.extname (name targetNoExt) = str ".js" ->
      verify fsPlain always noOverrides targetNoExt = Normal None)
  /\ (forall f,
         fix_ (requireExtReport targetNoExt [str ".js"] (str ".js")) = Some f ->
         f = Fixer.insertTextBeforeRange
               (snd (range (node targetNoExt)) - 1,
                snd (range (node targetNoExt)) - 1) (str ".js")
         /\ forall code q pre post,
             SpecifierAt code q targetNoExt pre post ->
             applyFix code f
             = pre ++ q :: (name targetNoExt ++ str ".js") ++ q :: post).
Proof.
  apply (always_requires_extension fsPlain always noOverrides targetNoExt
           (str "/p/a.js") [str ".js"] (str ".js")); vm_compute; reflexivity.
Defined.

Lemma never_forbids_extension_witness :
  (Path.extname (name targetExt) = str ".js"
   <-> verify fsPlain never noOverrides targetExt
       = Normal (Some (forbidExtReport targetExt [str ".js"] (str ".js"))))
  /\ (Path.extname (name targetExt) <> str ".js" ->
      verify fsPlain never noOverrides targetExt = Normal None)
  /\ (forall f,
         fix_ (forbidExtReport targetExt [str ".js"] (str ".js")) = Some f ->
         let start := fst (range (node targetExt)) + 1
                      + lastIndexOf (name targetExt) (str ".js") in
         f = Fixer.removeRange (start, start + len (str ".js"))).
Proof.
  apply (never_forbids_extension fsPlain never noOverrides targetExt
           (str "/p/a.js") [str ".js"] (str ".js")); vm_compute; reflexivity.
Defined.

Lemma no_fix_unless_one_sibling_witness :
  fix_ (requireExtReport targetNoExt [str ".js"; str ".ts"] (str ".js")) = None.
Proof.
  apply (no_fix_unless_one_sibling fsTwins always noOverrides targetNoExt
           (str "/p/a.js") [str ".js"; str ".ts"]).
  - reflexivity.
  - vm_compute. reflexivity.
  - simpl. lia.
  - vm_compute. reflexivity.
Defined.

Lemma discovery_soft_fail_witness :
  getExistingExtensions fsPlain (str "/missing/a.js") = Normal [].
Proof.
  apply (discovery_soft_fail fsPlain (str "/missing/a.js") ENOENT).
  vm_compute. reflexivity.
Defined.

Lemma override_precedence_witness :
  (forall v, neverForJs
             !! str ".js" = Some v ->
             exists s,
               v = StyleValue s
               /\ effectiveStyle always neverForJs
                    (str ".js") = StyleValue s
               /\ verify fsPlain always neverForJs
                    targetExt
                  = verify fsPlain s noOverrides targetExt)
  /\ (neverForJs
      !! str ".js" = None ->
      effectiveStyle always neverForJs (str ".js")
      = StyleValue always
      /\ verify fsPlain always neverForJs targetExt
         = verify fsPlain always noOverrides targetExt).
Proof.
  apply (proj1 override_precedence fsPlain always
           neverForJs targetExt (str "/p/a.js")
           [str ".js"] (str ".js")).
  - intros k v Hk _. unfold neverForJs in Hk.
    apply lookup_singleton_Some in Hk as [_ <-]. eauto.
  - reflexivity.
  - reflexivity.
  - reflexivity.
  - vm_compute. reflexivity.
  - vm_compute. reflexivity.
Defined.

Lemma virtual_file_skipped_witness :
  create fsPlain (list Target) (fun _ program _ => program)
         (mkContext (str "<input>") None None) = ∅
  /\ forall program,
       run fsPlain (list Target) (fun _ program _ => program)
           (mkContext (str "<input>") None None) program
       = Normal [].
Proof.
  apply (virtual_file_skipped fsPlain (list Target)
           (fun _ program _ => program)
           (mkContext (str "<input>") None None)).
  reflexivity.
Defined.

Lemma never_fix_removes_extension_witness :
  exists stem sl,
    name targetTrailingSlash = stem ++ str ".js" ++ sl
    /\ allSlash sl
    /\ str ".js" = Path.extname (name targetTrailingSlash)
    /\ lastIndexOf (name targetTrailingSlash) (str ".js")
       = len (name targetTrailingSlash) - len (str ".js") - len sl
    /\ 0 <= lastIndexOf (name targetTrailingSlash) (str ".js")
    /\ mkFix (11, 14) []
       = mkFix (fst (range (node targetTrailingSlash)) + 1 + len stem,
                fst (range (node targetTrailingSlash)) + 1 + len stem
                + len (str ".js")) []
    /\ fixedName targetTrailingSlash (mkFix (11, 14) []) = stem ++ sl
    /\ (LiteralRange targetTrailingSlash ->
        fst (range (node targetTrailingSlash)) + 1
        <= fst (fix_range (mkFix (11, 14) []))
        /\ snd (fix_range (mkFix (11, 14) []))
           = snd (range (node targetTrailingSlash)) - 1 - len sl)
    /\ (forall code q pre post,
           SpecifierAt code q targetTrailingSlash pre post ->
           applyFix code (mkFix (11, 14) [])
           = pre ++ q :: (stem ++ sl) ++ q :: post).
Proof.
  apply (never_fix_removes_extension fsPlain never noOverrides targetTrailingSlash
           (forbidExtReport targetTrailingSlash [str ".js"] (str ".js"))
           (mkFix (11, 14) [])).
  - vm_compute. reflexivity.
  - reflexivity.
  - vm_compute. reflexivity.
  - discriminate.
Defined.


(** * Further properties *)

(** ** The last component of a path *)

Lemma noSlash_app (a b : jsstring) : noSlash (a ++ b) <-> noSlash a /\ noSlash b.
Proof. apply Forall_app. Qed.

Lemma noDot_app (a b : jsstring) : noDot (a ++ b) <-> noDot a /\ noDot b.
Proof. apply Forall_app. Qed.

(** A path has one last component. *)
Lemma component_unique (pre body sl pre' body' sl' : jsstring) :
  pre ++ body ++ sl = pre' ++ body' ++ sl' ->
  body <> [] -> body' <> [] -> noSlash body -> noSlash body' ->
  allSlash sl -> allSlash sl' -> endsDirectory pre -> endsDirectory pre' ->
  pre = pre' /\ body = body' /\ sl = sl'.
Proof.
  intros E Hb Hb' Hn Hn' Hs Hs' Hp Hp'.
  assert (Hflip : forall s, allSlash s ->
                  Forall (fun c => ~ c <> CHAR_FORWARD_SLASH) s).
  { intros s H. eapply Forall_impl; [exact H|]. simpl. intros a -> Ha. auto. }
  destruct (exists_last Hb) as (b0 & z & Ez).
  destruct (exists_last Hb') as (b0' & z' & Ez').
  assert (Hz : z <> CHAR_FORWARD_SLASH).
  { rewrite Ez in Hn. apply noSlash_app in Hn as [_ Hn]. now inversion Hn. }
  assert (Hz' : z' <> CHAR_FORWARD_SLASH).
  { rewrite Ez' in Hn'. apply noSlash_app in Hn' as [_ Hn']. now inversion Hn'. }
  destruct (split_last_unique (fun x => x <> CHAR_FORWARD_SLASH)
              (pre ++ b0) (pre' ++ b0') sl sl' z z') as (E1 & E2 & E3); auto.
  { rewrite <- !app_assoc. simpl.
    rewrite Ez, Ez', <- !app_assoc in E. exact E. }
  subst z' sl'.
  assert (E' : pre ++ body = pre' ++ body').
  { rewrite Ez, Ez', !app_assoc, E1. reflexivity. }
  destruct (noSlash_last_component pre body pre' body' E' Hp Hn') as [l Hl].
  symmetry in E'.
  destruct (noSlash_last_component pre' body' pre body E' Hp' Hn) as [l' Hl'].
  assert (l = []).
  { apply (f_equal (@length ascii)) in Hl, Hl'. rewrite length_app in Hl, Hl'.
    destruct l; [reflexivity|simpl in *; lia]. }
  subst l. simpl in Hl.
  split_and!; auto. rewrite Hl in E'. apply app_inv_tail in E'. auto.
Qed.

(** A name has no dot, or splits at its last dot. *)
Lemma last_dot_split (body : jsstring) :
  noDot body \/ exists b1 r, body = b1 ++ CHAR_DOT :: r /\ noDot r.
Proof.
  induction body as [|c body IH].
  - left. constructor.
  - destruct IH as [Hn|(b1 & r & -> & Hr)].
    + destruct (decide (c = CHAR_DOT)) as [->|Hc].
      * right. exists [], body. auto.
      * left. constructor; auto.
    + right. exists (c :: b1), r. auto.
Qed.

(** [extname] read off the last component of the path: none without a
    dot; none when the last dot begins the component or the component
    is [..]; otherwise the last dot and what follows. *)
Lemma extname_component (pre body sl : jsstring) :
  body <> [] -> noSlash body -> allSlash sl -> endsDirectory pre ->
  (noDot body -> Path.extname (pre ++ body ++ sl) = [])
  /\ (forall b1 r,
         body = b1 ++ CHAR_DOT :: r -> noDot r ->
         Path.extname (pre ++ body ++ sl)
         = if decide (b1 = [] \/ (b1 = [CHAR_DOT] /\ r = [])) then []
           else CHAR_DOT :: r).
Proof.
  intros Hb Hn Hs Hp. set (path := pre ++ body ++ sl).
  unfold Path.extname.
  destruct (extname_final path)
    as [[Hall _]|(p' & body' & sl' & Hpath & Hb' & Hn' & Hs' & Hp' & Hsp & He
                  & Hd)].
  { exfalso. unfold path, allSlash in Hall.
    rewrite !Forall_app in Hall. destruct Hall as (_ & Hall & _).
    destruct body as [|c body]; [congruence|].
    inversion Hall; subst. inversion Hn; subst. contradiction. }
  set (v := Path.extname_loop (rev path) Path.extname_init) in *.
  destruct (component_unique pre body sl p' body' sl') as (<- & <- & <-); auto.
  split.
  - intros Hnd.
    destruct Hd as [(_ & Hs0 & _)|(b1 & r & Eb & _)].
    + unfold Path.extname_none. rewrite Hs0. reflexivity.
    + exfalso. rewrite Eb in Hnd. apply noDot_app in Hnd as [_ Hnd].
      inversion Hnd; subst. congruence.
  - intros b1 r Eb Hr.
    destruct Hd as [(Hnd & _)|(b1' & r' & Eb' & Hr' & Hs0 & Hpd)].
    { exfalso. rewrite Eb in Hnd. apply noDot_app in Hnd as [_ Hnd].
      inversion Hnd; subst. congruence. }
    destruct (split_last_unique (fun x => x = CHAR_DOT)
                b1' b1 r' r CHAR_DOT CHAR_DOT) as (-> & _ & ->); auto.
    { congruence. }
    pose proof (len_nonneg pre). pose proof (len_nonneg r).
    assert (Hlen : len body = len b1 + 1 + len r).
    { rewrite Eb, len_app, len_cons. lia. }
    unfold Path.extname_none. rewrite Hs0, He, Hsp, Hpd, Hlen.
    destruct (decide (b1 = [] \/ (b1 = [CHAR_DOT] /\ r = [])))
      as [[->|[-> ->]]|Hno].
    + simpl. rewrite len_nil.
      repeat (match goal with
              | |- context [?a =? ?b] => destruct (Z.eqb_spec a b); try lia
              end; simpl); auto.
    + simpl. rewrite len_cons, !len_nil.
      repeat (match goal with
              | |- context [?a =? ?b] => destruct (Z.eqb_spec a b); try lia
              end; simpl); auto.
    + assert (Hnone :
                (len pre + len b1 =? -1)
                || (len pre + (len b1 + 1 + len r) =? -1)
                || (preDotOf b1 =? 0)
                || ((preDotOf b1 =? 1)
                    && (len pre + len b1 =? len pre + (len b1 + 1 + len r) - 1)
                    && (len pre + len b1 =? len pre + 1)) = false).
      { destruct b1 as [|x b1]; [tauto|]. rewrite len_cons.
        pose proof (len_nonneg b1). simpl.
        destruct (decide (x = CHAR_DOT)) as [->|Hx];
          repeat (match goal with
                  | |- context [?a =? ?b] => destruct (Z.eqb_spec a b); try lia
                  end; simpl); auto.
        exfalso. apply Hno. right.
        destruct b1; [|rewrite len_cons in *; pose proof (len_nonneg b1); lia].
        destruct r; [auto|rewrite len_cons in *; pose proof (len_nonneg r); lia]. }
      rewrite Hnone.
      assert (Hp2 : path = (pre ++ b1) ++ (CHAR_DOT :: r) ++ sl).
      { unfold path. rewrite Eb.
        repeat first [rewrite <- app_assoc | progress simpl]. reflexivity. }
      rewrite Hp2 at 1.
      replace (len pre + len b1) with (len (pre ++ b1)) by apply len_app.
      replace (len pre + (len b1 + 1 + len r))
        with (len (pre ++ b1) + len (CHAR_DOT :: r))
        by (rewrite len_app, len_cons; lia).
      apply slice_middle.
Qed.

(** What precedes the last component does not change the extension. *)
Lemma extname_prefix (P comp : jsstring) :
  comp <> [] -> noSlash comp -> endsDirectory P ->
  Path.extname (P ++ comp) = Path.extname comp.
Proof.
  intros Hc Hn HP.
  assert (Hnil : endsDirectory []) by (left; reflexivity).
  destruct (extname_component P comp [] Hc Hn ltac:(constructor) HP)
    as [H1 H2].
  destruct (extname_component [] comp [] Hc Hn ltac:(constructor) Hnil)
    as [H1' H2'].
  rewrite app_nil_r in *. simpl in H1', H2'.
  destruct (last_dot_split comp) as [Hnd|(b1 & r & E & Hr)].
  - now rewrite H1, H1'.
  - now rewrite (H2 b1 r E Hr), (H2' b1 r E Hr).
Qed.

(** A name is its stem followed by its extension; the stem of a name
    with an extension is not empty. *)
Lemma stem_extname (comp : jsstring) :
  comp <> [] -> noSlash comp ->
  comp = stem comp ++ Path.extname comp
  /\ noSlash (stem comp) /\ noSlash (Path.extname comp)
  /\ (Path.extname comp <> [] -> stem comp <> []).
Proof.
  intros Hc Hn.
  assert (Hnil : endsDirectory []) by (left; reflexivity).
  destruct (extname_component [] comp [] Hc Hn ltac:(constructor) Hnil)
    as [H1 H2].
  rewrite app_nil_r in *. simpl in H1, H2. unfold stem.
  destruct (last_dot_split comp) as [Hnd|(b1 & r & E & Hr)].
  - rewrite (H1 Hnd). simpl. rewrite Nat.sub_0_r, firstn_all, app_nil_r.
    split_and!; auto; try constructor; congruence.
  - rewrite (H2 b1 r E Hr).
    destruct (decide _) as [_|Hno].
    + simpl. rewrite Nat.sub_0_r, firstn_all, app_nil_r.
      split_and!; auto; try constructor; congruence.
    + assert (Htake : take (length comp - length (CHAR_DOT :: r)) comp = b1).
      { rewrite E, length_app.
        replace (length b1 + length (CHAR_DOT :: r) - length (CHAR_DOT :: r))%nat
          with (length b1) by lia.
        apply take_app_length. }
      rewrite Htake. rewrite E in Hn. apply noSlash_app in Hn as [Hn1 Hn2].
      split_and!; auto.
Qed.

(** ** [path.basename] *)

Lemma charCodeAt_middle (a b : jsstring) (c : ascii) :
  Path.charCodeAt (a ++ c :: b) (len a) = Some c.
Proof.
  unfold Path.charCodeAt. pose proof (len_nonneg a).
  destruct (Z.ltb_spec (len a) 0); [lia|].
  apply list_lookup_middle. unfold len. lia.
Qed.

(** With the suffix matched or given up and a code unit seen, code units
    other than slashes change nothing. *)
Lemma basename_ext_skip (suffix rl rest : jsstring) (v : Path.BasenameVars) :
  noSlash rl ->
  Path.bn_extIdx v = -1 -> Path.bn_firstNonSlashEnd v <> -1 ->
  Path.basename_ext_loop suffix (rl ++ rest) v
  = Path.basename_ext_loop suffix rest v.
Proof.
  intros Hn Hx Hf. induction rl as [|c rl IH]; [reflexivity|].
  inversion Hn; subst. simpl.
  destruct (decide (c = CHAR_FORWARD_SLASH)); [contradiction|].
  destruct (Z.eqb_spec (Path.bn_firstNonSlashEnd v) (-1)); [contradiction|].
  rewrite Hx. simpl. auto.
Qed.

(** One step of the loop on a code unit that matches the suffix. *)
Lemma basename_ext_step (suffix rest : jsstring) (c : ascii)
    (v : Path.BasenameVars) :
  c <> CHAR_FORWARD_SLASH ->
  0 <= Path.bn_extIdx v ->
  Path.charCodeAt suffix (Path.bn_extIdx v) = Some c ->
  Path.basename_ext_loop suffix (c :: rest) v
  = Path.basename_ext_loop suffix rest
      (Path.mkBasenameVars
         (Path.bn_start v)
         (if Path.bn_extIdx v - 1 =? -1 then len rest else Path.bn_end v)
         (if Path.bn_firstNonSlashEnd v =? -1 then false
          else Path.bn_matchedSlash v)
         (Path.bn_extIdx v - 1)
         (if Path.bn_firstNonSlashEnd v =? -1 then len rest + 1
          else Path.bn_firstNonSlashEnd v)).
Proof.
  intros Hc Hx Hm. simpl.
  destruct (decide (c = CHAR_FORWARD_SLASH)); [contradiction|].
  destruct (Z.eqb_spec (Path.bn_firstNonSlashEnd v) (-1)); simpl;
    destruct (Z.leb_spec 0 (Path.bn_extIdx v)); try lia;
    rewrite Hm; destruct (decide (Some c = Some c)); try congruence;
    destruct (Z.eqb_spec (Path.bn_extIdx v - 1) (-1)); reflexivity.
Qed.

(** The loop across a suffix that ends the path. *)
Lemma basename_ext_match (suffix : jsstring) (e2 : jsstring) :
  forall e1 rest,
    suffix = e1 ++ e2 -> e2 <> [] -> noSlash e2 ->
    Path.basename_ext_loop suffix (rev e2 ++ rest)
      (Path.mkBasenameVars 0 (-1) true (len suffix - 1) (-1))
    = Path.basename_ext_loop suffix rest
        (Path.mkBasenameVars 0 (if decide (e1 = []) then len rest else -1)
           false (len e1 - 1) (len rest + len e2)).
Proof.
  induction e2 as [|c e2 IH]; intros e1 rest Hs Hne Hn; [congruence|].
  pose proof Hn as Hn0. apply Forall_cons in Hn0 as [Hc Hn'].
  pose proof (len_nonneg e1) as He1. pose proof (len_nonneg rest) as Hrest.
  destruct e2 as [|c' e2'].
  - simpl rev. simpl app.
    rewrite basename_ext_step; simpl; auto.
    + rewrite Hs, len_app, len_cons, len_nil.
      replace (len e1 + (0 + 1) - 1) with (len e1) by lia.
      destruct (decide (e1 = [])) as [->|Hne1].
      * rewrite len_nil. reflexivity.
      * destruct (Z.eqb_spec (len e1 - 1) (-1)); [|reflexivity].
        destruct e1; [congruence|]. rewrite len_cons in *.
        pose proof (len_nonneg e1). lia.
    + rewrite Hs, len_app, len_cons, len_nil. lia.
    + rewrite Hs, len_app, len_cons, len_nil.
      replace (len e1 + (0 + 1) - 1) with (len e1) by lia.
      apply charCodeAt_middle.
  - replace (rev (c :: c' :: e2') ++ rest)
      with (rev (c' :: e2') ++ c :: rest)
      by (simpl; repeat rewrite <- app_assoc; reflexivity).
    rewrite (IH (e1 ++ [c]) (c :: rest)); auto; try discriminate.
    2:{ rewrite Hs, <- app_assoc. reflexivity. }
    destruct (decide (e1 ++ [c] = [])) as [E|_].
    { destruct e1; discriminate. }
    rewrite basename_ext_step; simpl; auto.
    + rewrite !len_app, !len_cons, len_nil.
      pose proof (len_nonneg e2').
      destruct (Z.eqb_spec (len rest + 1 + (len e2' + 1)) (-1)); [lia|].
      replace (len e1 + (0 + 1) - 1) with (len e1) by lia.
      replace (len rest + 1 + (len e2' + 1))
        with (len rest + (len e2' + 1 + 1)) by lia.
      destruct (decide (e1 = [])) as [->|Hne1].
      * rewrite len_nil. reflexivity.
      * destruct (Z.eqb_spec (len e1 - 1) (-1)); [|reflexivity].
        destruct e1; [congruence|]. rewrite len_cons in *.
        pose proof (len_nonneg e1). lia.
    + rewrite len_app, len_cons, len_nil. lia.
    + rewrite len_app, len_cons, len_nil.
      replace (len e1 + (0 + 1) - 1) with (len e1) by lia.
      rewrite Hs. apply charCodeAt_middle.
Qed.

(** Leaving either loop of [basename] at the slash before the last
    component, or at the start of the path. *)
Lemma basename_ext_leave (suffix P : jsstring) (v : Path.BasenameVars) :
  endsDirectory P -> Path.bn_matchedSlash v = false -> Path.bn_start v = 0 ->
  Path.basename_ext_loop suffix (rev P) v
  = Path.mkBasenameVars (len P) (Path.bn_end v) false (Path.bn_extIdx v)
      (Path.bn_firstNonSlashEnd v).
Proof.
  intros [->|[p ->]] Hm Hs.
  - simpl. destruct v; simpl in *. subst. reflexivity.
  - rewrite rev_app_distr. simpl.
    destruct (decide (CHAR_FORWARD_SLASH = CHAR_FORWARD_SLASH)); [|congruence].
    rewrite Hm. simpl. rewrite len_app, len_rev, len_cons, len_nil.
    replace (len p + (0 + 1)) with (len p + 1) by lia. reflexivity.
Qed.

Lemma basename_leave (P : jsstring) (v : Path.BasenameVars) :
  endsDirectory P -> Path.bn_matchedSlash v = false -> Path.bn_start v = 0 ->
  Path.basename_loop (rev P) v
  = Path.mkBasenameVars (len P) (Path.bn_end v) false (Path.bn_extIdx v)
      (Path.bn_firstNonSlashEnd v).
Proof.
  intros [->|[p ->]] Hm Hs.
  - simpl. destruct v; simpl in *. subst. reflexivity.
  - rewrite rev_app_distr. simpl.
    destruct (decide (CHAR_FORWARD_SLASH = CHAR_FORWARD_SLASH)); [|congruence].
    rewrite Hm. simpl. rewrite len_app, len_rev, len_cons, len_nil.
    replace (len p + (0 + 1)) with (len p + 1) by lia. reflexivity.
Qed.

Lemma basename_skip (rl rest : jsstring) (v : Path.BasenameVars) :
  noSlash rl -> Path.bn_end v <> -1 ->
  Path.basename_loop (rl ++ rest) v = Path.basename_loop rest v.
Proof.
  intros Hn He. induction rl as [|c rl IH]; [reflexivity|].
  inversion Hn; subst. simpl.
  destruct (decide (c = CHAR_FORWARD_SLASH)); [contradiction|].
  destruct (Z.eqb_spec (Path.bn_end v) (-1)); [contradiction|]. auto.
Qed.

(** [basename] takes a suffix off the last component. *)
Lemma basename_strip (P st ext : jsstring) :
  endsDirectory P -> st <> [] -> noSlash st -> ext <> [] -> noSlash ext ->
  Path.basename (P ++ st ++ ext) ext = st.
Proof.
  intros HP Hst Hnst Hext Hnext. unfold Path.basename.
  pose proof (len_nonneg P). pose proof (len_nonneg ext).
  assert (0 < len st).
  { destruct st; [congruence|]. rewrite len_cons.
    pose proof (len_nonneg st). lia. }
  assert (0 < len ext).
  { destruct ext; [congruence|]. rewrite len_cons.
    pose proof (len_nonneg ext). lia. }
  rewrite !len_app.
  destruct (Z.ltb_spec 0 (len ext)); [|lia].
  destruct (Z.leb_spec (len ext) (len P + (len st + len ext))); [|lia].
  simpl.
  destruct (decide (ext = P ++ st ++ ext)) as [E|_].
  { apply (f_equal len) in E. rewrite !len_app in E. lia. }
  rewrite !rev_app_distr, <- !app_assoc.
  rewrite (basename_ext_match ext ext [] (rev st ++ rev P)); auto.
  simpl. rewrite len_nil. simpl.
  rewrite basename_ext_skip; simpl; auto.
  2:{ apply Forall_rev. exact Hnst. }
  2:{ rewrite len_app, !len_rev. lia. }
  rewrite basename_ext_leave; auto. simpl.
  rewrite len_app, !len_rev.
  destruct (Z.eqb_spec (len P) (len st + len P)); [lia|].
  destruct (Z.eqb_spec (len st + len P) (-1)); [lia|].
  replace (len st + len P) with (len P + len st) by lia.
  apply slice_middle.
Qed.

(** [basename] without a suffix is the last component. *)
Lemma basename_plain (P comp : jsstring) :
  endsDirectory P -> comp <> [] -> noSlash comp ->
  Path.basename (P ++ comp) [] = comp.
Proof.
  intros HP Hc Hn. unfold Path.basename. rewrite len_nil. simpl.
  destruct (exists_last Hc) as (c0 & z & ->).
  apply noSlash_app in Hn as [Hn0 Hz]. inversion Hz as [|? ? Hz' _]; subst.
  rewrite !rev_app_distr. simpl.
  destruct (decide (z = CHAR_FORWARD_SLASH)); [contradiction|]. simpl.
  rewrite basename_skip; simpl; auto.
  2:{ apply Forall_rev. exact Hn0. }
  2:{ rewrite len_app, !len_rev. pose proof (len_nonneg c0).
      pose proof (len_nonneg P). lia. }
  rewrite basename_leave; auto. simpl.
  rewrite len_app, !len_rev.
  pose proof (len_nonneg c0). pose proof (len_nonneg P).
  destruct (Z.eqb_spec (len c0 + len P + 1) (-1)); [lia|].
  replace (len c0 + len P + 1) with (len P + len (c0 ++ [z]))
    by (rewrite len_app, len_cons, len_nil; lia).
  pose proof (slice_middle P (c0 ++ [z]) []) as Hsl.
  rewrite app_nil_r in Hsl. exact Hsl.
Qed.

(** The base name that the discovery compares: the stem of the last
    component. *)
Lemma basename_stem (path P comp : jsstring) :
  SplitPath path P comp ->
  Path.basename path (Path.extname path) = stem comp.
Proof.
  intros (-> & Hc & Hn & HP).
  rewrite (extname_prefix P comp Hc Hn HP).
  destruct (stem_extname comp Hc Hn) as (E & Hns & Hne & Hst).
  destruct (Path.extname comp) as [|d ext] eqn:Hext.
  - rewrite app_nil_r in E. rewrite <- E. apply basename_plain; auto.
  - rewrite E at 1. apply basename_strip; auto; discriminate.
Qed.

(** ** [path.dirname] *)

Lemma dirname_loop_skip (rl rest : jsstring) (m : bool) :
  rl <> [] -> noSlash rl ->
  Path.dirname_loop (rl ++ rest) m = Path.dirname_loop rest false.
Proof.
  revert m. induction rl as [|c rl IH]; intros m Hne Hn; [congruence|].
  apply Forall_cons in Hn as [Hc Hn]. simpl.
  destruct (Z.ltb_spec (len (rl ++ rest)) 1) as [Hlt|Hge].
  - assert (rl ++ rest = []) as E.
    { destruct (rl ++ rest); [reflexivity|]. rewrite len_cons in Hlt.
      pose proof (len_nonneg l). lia. }
    apply app_eq_nil in E as [-> ->]. reflexivity.
  - destruct (decide (c = CHAR_FORWARD_SLASH)); [contradiction|].
    destruct rl as [|c' rl']; [reflexivity|]. apply IH; auto; discriminate.
Qed.

(** The directory of a path, read off what precedes its last
    component. *)
Lemma dirname_split (P comp : jsstring) :
  comp <> [] -> noSlash comp -> endsDirectory P ->
  Path.dirname (P ++ comp)
  = match P with
    | [] => str "."
    | _ :: _ =>
      if decide (removelast P = []) then str "/"
      else if decide (removelast P = [CHAR_FORWARD_SLASH]) then str "//"
      else removelast P
    end.
Proof.
  intros Hc Hn [->|[p ->]].
  - simpl. destruct comp as [|c comp]; [congruence|].
    pose proof Hn as Hn'. apply Forall_cons in Hn' as [Hc0 _].
    unfold Path.dirname.
    rewrite (bool_decide_eq_false_2 _ Hc0).
    replace (rev (c :: comp)) with (rev (c :: comp) ++ [])
      by apply app_nil_r.
    rewrite dirname_loop_skip.
    + reflexivity.
    + intros E. apply (f_equal (@length ascii)) in E.
      rewrite length_rev in E. discriminate.
    + apply Forall_rev. exact Hn.
  - rewrite removelast_last.
    assert (Hloop : Path.dirname_loop (rev ((p ++ [CHAR_FORWARD_SLASH]) ++ comp))
                      true
                    = if decide (p = []) then -1 else len p).
    { rewrite !rev_app_distr. simpl.
      rewrite dirname_loop_skip.
      - simpl. rewrite len_rev.
        destruct (decide (CHAR_FORWARD_SLASH = CHAR_FORWARD_SLASH));
          [|congruence].
        destruct p as [|x p]; simpl; [reflexivity|].
        rewrite len_cons. pose proof (len_nonneg p).
        destruct (Z.ltb_spec (len p + 1) 1); [lia|reflexivity].
      - intros E. apply (f_equal (@length ascii)) in E.
        rewrite length_rev in E. destruct comp; [congruence|discriminate].
      - apply Forall_rev. exact Hn. }
    unfold Path.dirname. rewrite Hloop.
    destruct p as [|x p].
    + simpl. destruct (decide _); reflexivity.
    + simpl app at 1. cbv beta iota.
      destruct (decide (x :: p = [])) as [E|_]; [discriminate|].
      pose proof (len_nonneg p). rewrite len_cons.
      destruct (Z.eqb_spec (len p + 1) (-1)); [lia|].
      destruct (decide (x :: p = [CHAR_FORWARD_SLASH])) as [E|Hne].
      * injection E as -> ->. reflexivity.
      * assert (Hsl : slice (((x :: p) ++ [CHAR_FORWARD_SLASH]) ++ comp) 0
                        (len p + 1) = x :: p).
        { rewrite <- app_assoc.
          replace (len p + 1) with (len (x :: p)) by (rewrite len_cons; lia).
          apply slice_prefix. }
        destruct (bool_decide (x = CHAR_FORWARD_SLASH)) eqn:Hx; simpl.
        -- destruct (Z.eqb_spec (len p + 1) 1) as [E1|_]; [|exact Hsl].
           exfalso. apply bool_decide_eq_true in Hx. subst x.
           destruct p; [congruence|]. rewrite len_cons in E1.
           pose proof (len_nonneg p). lia.
        -- exact Hsl.
Qed.

(** The last component does not change the directory. *)
Lemma dirname_component (P comp comp' : jsstring) :
  comp <> [] -> noSlash comp -> comp' <> [] -> noSlash comp' ->
  endsDirectory P ->
  Path.dirname (P ++ comp) = Path.dirname (P ++ comp').
Proof.
  intros Hc Hn Hc' Hn' HP. now rewrite !dirname_split.
Qed.

(** ** The discovery of sibling extensions *)

Lemma SplitPath_entry (e : jsstring) : EntryName e -> SplitPath e [] e.
Proof. intros [He Hn]. split_and!; auto. left. reflexivity. Qed.

Lemma stem_nonempty (comp : jsstring) :
  comp <> [] -> noSlash comp -> stem comp <> [].
Proof.
  intros Hc Hn. destruct (stem_extname comp Hc Hn) as (E & _ & _ & Hst).
  destruct (Path.extname comp) eqn:Hext.
  - rewrite app_nil_r in E. congruence.
  - apply Hst. discriminate.
Qed.

(** The discovery on a listed directory, with the calls of [path]
    resolved: the extensions of the entries that have the stem of the
    last component of the path. *)
Lemma discovery_stems (readdirSync : jsstring -> Completion (list jsstring))
    (path P comp : jsstring) (entries : list jsstring) :
  SplitPath path P comp ->
  readdirSync (Path.dirname path) = Normal entries ->
  Forall EntryName entries ->
  getExistingExtensions readdirSync path
  = Normal (map Path.extname
              (List.filter (fun e => bool_decide (stem e = stem comp))
                 entries)).
Proof.
  intros Hsplit Hdir Hentries. unfold getExistingExtensions.
  rewrite Hdir. simpl. do 2 f_equal. apply filter_ext_in.
  intros e Hin. rewrite Forall_forall in Hentries.
  apply list_elem_of_In in Hin.
  rewrite (basename_stem path P comp Hsplit).
  rewrite (basename_stem e [] e (SplitPath_entry e (Hentries e Hin))).
  reflexivity.
Qed.

(** X1: on a directory that can be listed, an entry contributes its
    extension exactly when its name without its extension equals the
    last component of the path without its extension; the extensions
    come in the order of the listing. *)
Theorem discovery_by_stem
    (readdirSync : jsstring -> Completion (list jsstring))
    (path P comp : jsstring) (entries : list jsstring) :
  SplitPath path P comp ->
  readdirSync (Path.dirname path) = Normal entries ->
  Forall EntryName entries ->
  getExistingExtensions readdirSync path
  = Normal (map Path.extname
              (List.filter (fun e => bool_decide (stem e = stem comp))
                 entries))
  /\ forall e, e ∈ entries ->
               e = stem e ++ Path.extname e
               /\ (Path.extname e <> [] -> stem e <> []).
Proof.
  intros Hsplit Hdir Hentries. split.
  - now apply (discovery_stems readdirSync path P comp entries).
  - intros e Hin. rewrite Forall_forall in Hentries.
    destruct (Hentries e Hin) as [He Hn].
    destruct (stem_extname e He Hn) as (E & _ & _ & Hst). auto.
Qed.

(** X2: when the directory lists the file itself, the extension of the
    path is among the discovered ones; so when exactly one extension is
    discovered, it is the extension of the path. *)
Theorem discovery_lists_own_extension
    (readdirSync : jsstring -> Completion (list jsstring))
    (path P comp : jsstring) (entries : list jsstring) :
  SplitPath path P comp ->
  readdirSync (Path.dirname path) = Normal entries ->
  Forall EntryName entries ->
  comp ∈ entries ->
  exists exts,
    getExistingExtensions readdirSync path = Normal exts
    /\ Path.extname path ∈ exts
    /\ (length exts = 1%nat -> exts = [Path.extname path]).
Proof.
  intros Hsplit Hdir Hentries Hin.
  rewrite (discovery_stems readdirSync path P comp entries) by assumption.
  eexists. split; [reflexivity|].
  assert (Hmem : Path.extname path
                 ∈ map Path.extname
                     (List.filter (fun e => bool_decide (stem e = stem comp))
                        entries)).
  { destruct Hsplit as (-> & Hc & Hn & HP).
    rewrite (extname_prefix P comp Hc Hn HP).
    apply list_elem_of_In, in_map, filter_In. split.
    - now apply list_elem_of_In.
    - now apply bool_decide_eq_true. }
  split; [exact Hmem|].
  intros Hlen.
  destruct (map Path.extname _) as [|x [|y l]]; try discriminate.
  apply list_elem_of_singleton in Hmem. now subst.
Qed.

(** X3: the extension of the path itself plays no role in the
    discovery: a path and the path without its extension discover the
    same extensions, when what is left has no extension of its own. *)
Theorem discovery_ignores_own_extension
    (readdirSync : jsstring -> Completion (list jsstring))
    (path P comp : jsstring) :
  SplitPath path P comp ->
  Path.extname (stem comp) = [] ->
  (forall entries, readdirSync (Path.dirname path) = Normal entries ->
                   Forall EntryName entries) ->
  getExistingExtensions readdirSync (P ++ stem comp)
  = getExistingExtensions readdirSync path.
Proof.
  intros Hsplit Hstem Hwf.
  pose proof Hsplit as (Hpath & Hc & Hn & HP).
  destruct (stem_extname comp Hc Hn) as (_ & Hns & _ & _).
  pose proof (stem_nonempty comp Hc Hn) as Hne.
  assert (Hsplit' : SplitPath (P ++ stem comp) P (stem comp)).
  { split_and!; auto. }
  assert (Hdir : Path.dirname (P ++ stem comp) = Path.dirname path).
  { rewrite Hpath. now apply dirname_component. }
  destruct (readdirSync (Path.dirname path)) as [entries|err] eqn:Hls.
  - rewrite (discovery_stems readdirSync path P comp entries); auto.
    rewrite (discovery_stems readdirSync _ P (stem comp) entries); auto.
    + assert (Hss : stem (stem comp) = stem comp).
      { unfold stem at 1. rewrite Hstem. simpl.
        rewrite Nat.sub_0_r. apply firstn_all. }
      now rewrite Hss.
    + now rewrite Hdir.
  - unfold getExistingExtensions. now rewrite Hdir, Hls.
Qed.

Lemma filter_map_sublist {A B} (f : A -> B) (p : A -> bool) (l : list A) :
  sublist (map f (List.filter p l)) (map f l).
Proof.
  induction l as [|x l IH]; simpl; [constructor|].
  destruct (p x); simpl; [now apply sublist_skip|now apply sublist_cons].
Qed.

(** The shape of a result of [extname]. *)
Lemma extname_is_extension (p : jsstring) :
  Path.extname p = []
  \/ exists r, Path.extname p = CHAR_DOT :: r /\ noDot r /\ noSlash r.
Proof.
  destruct (Path.extname p) eqn:E; [auto|right].
  assert (Hne : Path.extname p <> []) by (rewrite E; discriminate).
  destruct (extname_shape p Hne) as (_ & r & _ & _ & Hr & Hnd & Hns & _).
  exists r. rewrite <- E. auto.
Qed.

(** X4: the discovery never invents an extension: what it returns is a
    subsequence of the extensions of the entries, in their order, each
    one empty or a dot followed by code units other than dots and
    slashes. *)
Theorem discovery_sublist
    (readdirSync : jsstring -> Completion (list jsstring))
    (path : jsstring) (entries : list jsstring) :
  readdirSync (Path.dirname path) = Normal entries ->
  exists exts,
    getExistingExtensions readdirSync path = Normal exts
    /\ sublist exts (map Path.extname entries)
    /\ (length exts <= length entries)%nat
    /\ Forall (fun ext => ext = []
                          \/ exists r, ext = CHAR_DOT :: r
                                       /\ noDot r /\ noSlash r) exts.
Proof.
  intros Hdir. unfold getExistingExtensions. rewrite Hdir. simpl.
  eexists. split; [reflexivity|].
  assert (Hsub := filter_map_sublist Path.extname
                    (fun filename =>
                       bool_decide
                         (Path.basename filename (Path.extname filename)
                          = Path.basename path (Path.extname path)))
                    entries).
  split_and!.
  - exact Hsub.
  - apply sublist_length in Hsub. rewrite !length_map in Hsub.
    rewrite length_map. exact Hsub.
  - apply Forall_forall. intros ext Hin.
    apply list_elem_of_In, in_map_iff in Hin as (e & <- & _).
    apply extname_is_extension.
Qed.

(** ** Reports *)

(** X5: the decision does not depend on where the literal sits in the
    source text: moving the literal by [k] code units moves the node and
    the range of the fix by [k] and changes nothing else. *)
Theorem verify_translation
    (readdirSync : jsstring -> Completion (list jsstring))
    (defaultStyle : Style) (overrideStyle : gmap jsstring OptionValue)
    (k : Z) (t : Target) :
  verify readdirSync defaultStyle overrideStyle (shiftTarget k t)
  = match verify readdirSync defaultStyle overrideStyle t with
    | Normal r => Normal (option_map (shiftDescriptor k) r)
    | Throw e => Throw e
    end.
Proof.
  unfold verify. simpl.
  destruct (filePath t) as [fp|]; [|reflexivity].
  destruct (negb (truthy fp) || negb (hasPathSeparator (name t)));
    [reflexivity|].
  destruct (getExistingExtensions_normal readdirSync fp) as [exts ->]. simpl.
  destruct (negb (truthy (Path.extname fp)) && negb (length exts =? 1)%nat);
    [reflexivity|].
  f_equal. unfold verifyExtension. simpl.
  destruct (bool_decide _ && negb _).
  { simpl. unfold shiftDescriptor, shiftRange, Fixer.insertTextBeforeRange.
    simpl. destruct (negb (length exts =? 1)%nat); simpl; [reflexivity|].
    replace (snd (range (node t)) + k - 1)
      with (snd (range (node t)) - 1 + k) by lia.
    reflexivity. }
  destruct (bool_decide _ && bool_decide _); [|reflexivity].
  simpl. unfold shiftDescriptor, shiftRange, Fixer.removeRange.
  simpl. destruct (negb (length exts =? 1)%nat); simpl; [reflexivity|].
  set (idx := lastIndexOf (name t) _). set (n := len _).
  replace (fst (range (node t)) + k + 1 + idx)
    with (fst (range (node t)) + 1 + idx + k) by lia.
  replace (fst (range (node t)) + 1 + idx + k + n)
    with (fst (range (node t)) + 1 + idx + n + k) by lia.
  reflexivity.
Qed.

(** X6: a report is on the node of its target; its extension is empty
    or a dot followed by code units other than dots and slashes; and a
    fix either inserts that extension at one offset or removes as many
    code units as the extension has and inserts nothing. *)
Theorem report_shape
    (readdirSync : jsstring -> Completion (list jsstring))
    (defaultStyle : Style) (overrideStyle : gmap jsstring OptionValue)
    (t : Target) (d : Descriptor) :
  verify readdirSync defaultStyle overrideStyle t = Normal (Some d) ->
  d_node d = node t
  /\ (data_ext d = []
      \/ exists r, data_ext d = CHAR_DOT :: r /\ noDot r /\ noSlash r)
  /\ (forall f,
         fix_ d = Some f ->
         (messageId d = requireExt
          /\ fix_text f = data_ext d
          /\ fst (fix_range f) = snd (fix_range f))
         \/ (messageId d = forbidExt
             /\ fix_text f = []
             /\ snd (fix_range f) - fst (fix_range f) = len (data_ext d))).
Proof.
  intros H.
  destruct (report_inv readdirSync defaultStyle overrideStyle t d H)
    as (fp & exts & Hfp & Htr & Hsep & Hex & Hcan & Hcase).
  split_and!.
  - destruct Hcase as [(_ & _ & ->)|(_ & _ & ->)]; reflexivity.
  - destruct (canonical_is_extname readdirSync fp exts _ Hex Hcan) as [p ->].
    apply extname_is_extension.
  - intros f Hf.
    destruct Hcase as [(_ & _ & Hd)|(_ & _ & Hd)]; rewrite Hd in Hf |- *;
      simpl in *; destruct (decide _); try discriminate;
      injection Hf as <-; simpl; [left|right]; split_and!; auto; lia.
Qed.

(** [verify] reads the overrides only at extensions. *)
Lemma verify_overrides_agree
    (readdirSync : jsstring -> Completion (list jsstring))
    (defaultStyle : Style) (ov ov' : gmap jsstring OptionValue) (t : Target) :
  (forall p, ov !! Path.extname p = ov' !! Path.extname p) ->
  verify readdirSync defaultStyle ov t = verify readdirSync defaultStyle ov' t.
Proof.
  intros Hagree.
  destruct (filePath t) as [fp|] eqn:Hfp.
  2:{ unfold verify. now rewrite Hfp. }
  destruct (truthy fp) eqn:Htr.
  2:{ unfold verify. now rewrite Hfp, Htr. }
  destruct (hasPathSeparator (name t)) eqn:Hsep.
  2:{ unfold verify. now rewrite Hfp, Htr, Hsep. }
  destruct (getExistingExtensions_normal readdirSync fp) as [exts Hex].
  rewrite !(verify_canonical readdirSync _ _ t fp exts) by assumption.
  destruct (canonicalExtension (Path.extname fp) exts) as [ext|] eqn:Hcan;
    [|reflexivity].
  destruct (canonical_is_extname readdirSync fp exts ext Hex Hcan) as [p ->].
  f_equal. apply verifyExtension_style. unfold effectiveStyle.
  now rewrite Hagree.
Qed.

(** X7: an entry of the overrides whose key is not empty and does not
    begin with a dot, such as [tryExtensions] or [js], has no effect on
    any target. *)
Theorem override_without_dot_ignored
    (readdirSync : jsstring -> Completion (list jsstring))
    (defaultStyle : Style) (overrideStyle : gmap jsstring OptionValue)
    (key : jsstring) (v : OptionValue) (t : Target) :
  key <> [] ->
  (forall r, key <> CHAR_DOT :: r) ->
  verify readdirSync defaultStyle (<[ key := v ]> overrideStyle) t
  = verify readdirSync defaultStyle overrideStyle t.
Proof.
  intros Hne Hdot. apply verify_overrides_agree. intros p.
  apply lookup_insert_ne.
  destruct (extname_is_extension p) as [E|(r & E & _)]; rewrite E.
  - exact Hne.
  - apply Hdot.
Qed.

(** X8: [verify] consults the file system only for the listing of the
    directory of the resolved path. *)
Theorem verify_reads_one_directory
    (readdirSync readdirSync' : jsstring -> Completion (list jsstring))
    (defaultStyle : Style) (overrideStyle : gmap jsstring OptionValue)
    (t : Target) :
  (forall fp, filePath t = Some fp ->
              readdirSync (Path.dirname fp) = readdirSync' (Path.dirname fp)) ->
  verify readdirSync defaultStyle overrideStyle t
  = verify readdirSync' defaultStyle overrideStyle t.
Proof.
  intros H. unfold verify.
  destruct (filePath t) as [fp|]; [|reflexivity].
  destruct (negb (truthy fp) || negb (hasPathSeparator (name t)));
    [reflexivity|].
  unfold getExistingExtensions. now rewrite (H fp eq_refl).
Qed.

(** X9: when the directory of the resolved path cannot be listed, a
    path without extension gets no diagnostic, and a diagnostic for a
    path with an extension names that extension and has no fix. *)
Theorem unlisted_directory
    (readdirSync : jsstring -> Completion (list jsstring))
    (defaultStyle : Style) (overrideStyle : gmap jsstring OptionValue)
    (t : Target) (fp : jsstring) (e : JsError) :
  filePath t = Some fp ->
  readdirSync (Path.dirname fp) = Throw e ->
  (Path.extname fp = [] ->
   verify readdirSync defaultStyle overrideStyle t = Normal None)
  /\ (forall d,
         verify readdirSync defaultStyle overrideStyle t = Normal (Some d) ->
         data_ext d = Path.extname fp /\ fix_ d = None)
  /\ (truthy fp = true -> hasPathSeparator (name t) = true ->
      verify readdirSync defaultStyle overrideStyle t
      = Normal match Path.extname fp with
               | [] => None
               | _ :: _ =>
                 verifyExtension defaultStyle overrideStyle t []
                   (Path.extname fp)
               end).
Proof.
  intros Hfp Hdir.
  assert (Hex : getExistingExtensions readdirSync fp = Normal []).
  { unfold getExistingExtensions. now rewrite Hdir. }
  assert (Hgen : truthy fp = true -> hasPathSeparator (name t) = true ->
                 verify readdirSync defaultStyle overrideStyle t
                 = Normal match Path.extname fp with
                          | [] => None
                          | _ :: _ =>
                            verifyExtension defaultStyle overrideStyle t []
                              (Path.extname fp)
                          end).
  { intros Htr Hsep.
    rewrite (verify_canonical readdirSync _ _ t fp [] Hfp Htr Hsep Hex).
    destruct (Path.extname fp); reflexivity. }
  split_and!; [| |exact Hgen].
  - intros Hext. unfold verify. rewrite Hfp.
    destruct (negb (truthy fp) || negb (hasPathSeparator (name t)));
      [reflexivity|].
    rewrite Hex, Hext. reflexivity.
  - intros d H.
    destruct (report_inv readdirSync defaultStyle overrideStyle t d H)
      as (fp' & exts & Hfp' & Htr & Hsep & Hex' & Hcan & Hcase).
    assert (fp' = fp) as -> by congruence.
    assert (exts = []) as -> by congruence.
    split.
    + destruct (Path.extname fp); simpl in Hcan; congruence.
    + destruct Hcase as [(_ & _ & ->)|(_ & _ & ->)]; reflexivity.
Qed.

(** ** Fixes that do not settle the diagnostic *)

Lemma lastIndexOf_empty (s : jsstring) : lastIndexOf s [] = len s.
Proof.
  unfold lastIndexOf. simpl. rewrite Nat.sub_0_r.
  destruct (length s) eqn:E; unfold len; rewrite E; reflexivity.
Qed.

Lemma fixedName_insert (t : Target) (ext : jsstring) :
  LiteralRange t ->
  fixedName t (mkFix (snd (range (node t)) - 1, snd (range (node t)) - 1) ext)
  = name t ++ ext.
Proof.
  intros HL. unfold fixedName. simpl. unfold LiteralRange in HL. rewrite HL.
  replace (fst (range (node t)) + len (name t) + 2 - 1
           - (fst (range (node t)) + 1)) with (len (name t)) by lia.
  pose proof (applyFix_insert (name t) [] ext) as Hins.
  rewrite !app_nil_r in Hins. exact Hins.
Qed.

Lemma fixedTarget_same (t : Target) (f : Fix) :
  LiteralRange t -> fixedName t f = name t -> fixedTarget t f = t.
Proof.
  intros HL Hn. unfold fixedTarget. rewrite Hn. unfold LiteralRange in HL.
  destruct t as [fp n [[r0 r1]]]. simpl in *. subst r1. reflexivity.
Qed.

(** ** Runs *)

Lemma verify_normal
    (readdirSync : jsstring -> Completion (list jsstring))
    (defaultStyle : Style) (overrideStyle : gmap jsstring OptionValue)
    (t : Target) :
  verify readdirSync defaultStyle overrideStyle t
  = Normal (reportOf readdirSync defaultStyle overrideStyle t).
Proof.
  unfold reportOf, verify.
  destruct (filePath t) as [fp|]; [|reflexivity].
  destruct (negb (truthy fp) || negb (hasPathSeparator (name t)));
    [reflexivity|].
  destruct (getExistingExtensions_normal readdirSync fp) as [exts ->]. simpl.
  destruct (negb _ && negb _); reflexivity.
Qed.

Lemma forEach_omap {A B} (f : A -> Completion (option B)) (g : A -> option B)
    (xs : list A) :
  (forall x, f x = Normal (g x)) -> forEach f xs = Normal (omap g xs).
Proof.
  intros Hf. induction xs as [|x xs IH]; [reflexivity|].
  simpl. rewrite Hf, IH. simpl. destruct (g x); reflexivity.
Qed.

Lemma run_omap (readdirSync : jsstring -> Completion (list jsstring))
    (ProgramNode : Type)
    (getImportExportTargets : Context -> ProgramNode -> Z -> list Target)
    (context : Context) (program : ProgramNode) :
  run readdirSync ProgramNode getImportExportTargets context program
  = Normal
      (if startsWith (getFilename context) [CHAR_LT] then []
       else omap (reportOf readdirSync (default always (options0 context))
                    (default ∅ (options1 context)))
              (getImportExportTargets context program 1)).
Proof.
  unfold run, create.
  destruct (startsWith (getFilename context) [CHAR_LT]).
  - now rewrite lookup_empty.
  - rewrite lookup_singleton_eq. apply forEach_omap. intros t.
    apply verify_normal.
Qed.

Lemma reportOf_node (readdirSync : jsstring -> Completion (list jsstring))
    (defaultStyle : Style) (overrideStyle : gmap jsstring OptionValue)
    (t : Target) (d : Descriptor) :
  reportOf readdirSync defaultStyle overrideStyle t = Some d ->
  d_node d = node t.
Proof.
  intros H.
  assert (Hv : verify readdirSync defaultStyle overrideStyle t
               = Normal (Some d)) by (rewrite verify_normal; now rewrite H).
  destruct (report_inv readdirSync defaultStyle overrideStyle t d Hv)
    as (fp & exts & _ & _ & _ & _ & _ & [(_ & _ & ->)|(_ & _ & ->)]);
    reflexivity.
Qed.

Lemma omap_nodes_sublist (g : Target -> option Descriptor) (ts : list Target) :
  (forall t d, g t = Some d -> d_node d = node t) ->
  sublist (map d_node (omap g ts)) (map node ts).
Proof.
  intros Hg. induction ts as [|t ts IH]; simpl; [constructor|].
  destruct (g t) as [d|] eqn:E; simpl.
  - rewrite (Hg t d E). now apply sublist_skip.
  - now apply sublist_cons.
Qed.

(** X12: a run never throws, whatever the file system does. It reports
    at most one diagnostic per target, on the nodes of the targets and
    in their order; on a file whose name does not begin with [<], these
    are the reports of [verify] on each target, under the style [always]
    and no overrides where the options are missing. *)
Theorem run_reports_per_target
    (readdirSync : jsstring -> Completion (list jsstring))
    (ProgramNode : Type)
    (getImportExportTargets : Context -> ProgramNode -> Z -> list Target)
    (context : Context) (program : ProgramNode) :
  exists reports,
    run readdirSync ProgramNode getImportExportTargets context program
    = Normal reports
    /\ sublist (map d_node reports)
         (map node (getImportExportTargets context program 1))
    /\ (startsWith (getFilename context) [CHAR_LT] = false ->
        reports
        = omap (reportOf readdirSync (default always (options0 context))
                  (default ∅ (options1 context)))
            (getImportExportTargets context program 1)).
Proof.
  rewrite run_omap. eexists. split; [reflexivity|].
  destruct (startsWith (getFilename context) [CHAR_LT]).
  - split; [apply sublist_nil_l|discriminate].
  - split; [|reflexivity]. apply omap_nodes_sublist.
    intros t d. apply reportOf_node.
Qed.

(** X13: targets are judged independently: when the targets of a
    program are those of one program followed by those of another, its
    reports are the reports of the one followed by those of the
    other. *)
Theorem run_append
    (readdirSync : jsstring -> Completion (list jsstring))
    (ProgramNode : Type)
    (getImportExportTargets : Context -> ProgramNode -> Z -> list Target)
    (context : Context) (program program1 program2 : ProgramNode) :
  getImportExportTargets context program 1
  = getImportExportTargets context program1 1
    ++ getImportExportTargets context program2 1 ->
  exists reports1 reports2,
    run readdirSync ProgramNode getImportExportTargets context program1
    = Normal reports1
    /\ run readdirSync ProgramNode getImportExportTargets context program2
       = Normal reports2
    /\ run readdirSync ProgramNode getImportExportTargets context program
       = Normal (reports1 ++ reports2).
Proof.
  intros Happ. rewrite !run_omap. do 2 eexists.
  split; [reflexivity|]. split; [reflexivity|].
  destruct (startsWith (getFilename context) [CHAR_LT]); [reflexivity|].
  rewrite Happ, omap_app. reflexivity.
Qed.


(** ** The further properties at the sample inputs *)

Lemma SplitPath_a_js : SplitPath (str "/p/a.js") (str "/p/") (str "a.js").
Proof.
  split_and!; [reflexivity|discriminate| |right; exists (str "/p"); reflexivity].
  repeat constructor; discriminate.
Qed.

Lemma EntryName_plain : Forall EntryName [str "a.js"; str "b.js"].
Proof. repeat constructor; discriminate. Qed.

Lemma EntryName_twins : Forall EntryName [str "a.js"; str "a.ts"].
Proof. repeat constructor; discriminate. Qed.

Lemma discovery_by_stem_witness :
  getExistingExtensions fsTwins (str "/p/a.js")
  = Normal (map Path.extname
              (List.filter (fun e => bool_decide (stem e = stem (str "a.js")))
                 [str "a.js"; str "a.ts"]))
  /\ forall e, e ∈ [str "a.js"; str "a.ts"] ->
               e = stem e ++ Path.extname e
               /\ (Path.extname e <> [] -> stem e <> []).
Proof.
  apply (discovery_by_stem fsTwins (str "/p/a.js") (str "/p/") (str "a.js")
           [str "a.js"; str "a.ts"]).
  - exact SplitPath_a_js.
  - vm_compute. reflexivity.
  - exact EntryName_twins.
Defined.

Lemma discovery_lists_own_extension_witness :
  exists exts,
    getExistingExtensions fsPlain (str "/p/a.js") = Normal exts
    /\ Path.extname (str "/p/a.js") ∈ exts
    /\ (length exts = 1%nat -> exts = [Path.extname (str "/p/a.js")]).
Proof.
  apply (discovery_lists_own_extension fsPlain (str "/p/a.js") (str "/p/")
           (str "a.js") [str "a.js"; str "b.js"]).
  - exact SplitPath_a_js.
  - vm_compute. reflexivity.
  - exact EntryName_plain.
  - apply list_elem_of_here.
Defined.

Lemma discovery_ignores_own_extension_witness :
  getExistingExtensions fsTwins (str "/p/" ++ stem (str "a.js"))
  = getExistingExtensions fsTwins (str "/p/a.js").
Proof.
  apply (discovery_ignores_own_extension fsTwins (str "/p/a.js") (str "/p/")
           (str "a.js")).
  - exact SplitPath_a_js.
  - vm_compute. reflexivity.
  - intros entries H. vm_compute in H. injection H as <-.
    exact EntryName_twins.
Defined.

Lemma discovery_sublist_witness :
  exists exts,
    getExistingExtensions fsPlain (str "/p/a.js") = Normal exts
    /\ sublist exts (map Path.extname [str "a.js"; str "b.js"])
    /\ (length exts <= length [str "a.js"; str "b.js"])%nat
    /\ Forall (fun ext => ext = []
                          \/ exists r, ext = CHAR_DOT :: r
                                       /\ noDot r /\ noSlash r) exts.
Proof.
  apply (discovery_sublist fsPlain (str "/p/a.js") [str "a.js"; str "b.js"]).
  vm_compute. reflexivity.
Defined.

Lemma report_shape_witness :
  d_node (requireExtReport targetNoExt [str ".js"] (str ".js"))
  = node targetNoExt
  /\ (data_ext (requireExtReport targetNoExt [str ".js"] (str ".js")) = []
      \/ exists r,
           data_ext (requireExtReport targetNoExt [str ".js"] (str ".js"))
           = CHAR_DOT :: r /\ noDot r /\ noSlash r)
  /\ (forall f,
         fix_ (requireExtReport targetNoExt [str ".js"] (str ".js")) = Some f ->
         (messageId (requireExtReport targetNoExt [str ".js"] (str ".js"))
          = requireExt
          /\ fix_text f
             = data_ext (requireExtReport targetNoExt [str ".js"] (str ".js"))
          /\ fst (fix_range f) = snd (fix_range f))
         \/ (messageId (requireExtReport targetNoExt [str ".js"] (str ".js"))
             = forbidExt
             /\ fix_text f = []
             /\ snd (fix_range f) - fst (fix_range f)
                = len (data_ext
                         (requireExtReport targetNoExt [str ".js"]
                            (str ".js"))))).
Proof.
  apply (report_shape fsPlain always noOverrides targetNoExt).
  vm_compute. reflexivity.
Defined.

Lemma override_without_dot_ignored_witness :
  verify fsPlain always
    (<[ str "tryExtensions" := TryExtensions [str ".ts"] ]> noOverrides)
    targetNoExt
  = verify fsPlain always noOverrides targetNoExt.
Proof.
  apply (override_without_dot_ignored fsPlain always noOverrides
           (str "tryExtensions") (TryExtensions [str ".ts"]) targetNoExt).
  - discriminate.
  - intros r. discriminate.
Defined.

Lemma verify_reads_one_directory_witness :
  verify fsPlain always noOverrides targetNoExt
  = verify fsPlainAndMore always noOverrides targetNoExt.
Proof.
  apply (verify_reads_one_directory fsPlain fsPlainAndMore always noOverrides
           targetNoExt).
  intros fp H. injection H as <-. vm_compute. reflexivity.
Defined.

Lemma unlisted_directory_witness :
  (Path.extname (str "/missing/a.js") = [] ->
   verify fsPlain always noOverrides targetUnlisted = Normal None)
  /\ (forall d,
         verify fsPlain always noOverrides targetUnlisted = Normal (Some d) ->
         data_ext d = Path.extname (str "/missing/a.js") /\ fix_ d = None)
  /\ (truthy (str "/missing/a.js") = true ->
      hasPathSeparator (name targetUnlisted) = true ->
      verify fsPlain always noOverrides targetUnlisted
      = Normal match Path.extname (str "/missing/a.js") with
               | [] => None
               | _ :: _ =>
                 verifyExtension always noOverrides targetUnlisted []
                   (Path.extname (str "/missing/a.js"))
               end).
Proof.
  apply (unlisted_directory fsPlain always noOverrides targetUnlisted
           (str "/missing/a.js") ENOENT).
  - reflexivity.
  - vm_compute. reflexivity.
Defined.

Lemma run_append_witness :
  exists reports1 reports2,
    run fsPlain (list Target) (fun _ program _ => program)
        (mkContext (str "/p/main.js") None None) [targetBare; targetNoExt]
    = Normal reports1
    /\ run fsPlain (list Target) (fun _ program _ => program)
           (mkContext (str "/p/main.js") None None) [targetExt]
       = Normal reports2
    /\ run fsPlain (list Target) (fun _ program _ => program)
           (mkContext (str "/p/main.js") None None)
           [targetBare; targetNoExt; targetExt]
       = Normal (reports1 ++ reports2).
Proof.
  apply (run_append fsPlain (list Target) (fun _ program _ => program)
           (mkContext (str "/p/main.js") None None)
           [targetBare; targetNoExt; targetExt]
           [targetBare; targetNoExt] [targetExt]).
  reflexivity.
Defined.

(** * Fixes and the second pass *)

(** ** The extension and what precedes it *)

(** A path with an extension: what precedes the last component, the
    non-empty part of the component before its last dot, the extension,
    and trailing slashes. *)
Lemma extname_stem_shape (path : jsstring) :
  Path.extname path <> [] ->
  exists pre b1 r sl,
    path = pre ++ b1 ++ (CHAR_DOT :: r) ++ sl
    /\ endsDirectory pre /\ b1 <> [] /\ noSlash b1
    /\ noDot r /\ noSlash r /\ allSlash sl
    /\ Path.extname path = CHAR_DOT :: r.
Proof.
  intros Hne.
  destruct (extname_final path)
    as [[Hall Hv]|(pre & body & sl & Hp & Hb & Hns & Hsl & Hpre & _)].
  { exfalso. apply Hne. unfold Path.extname. rewrite Hv. reflexivity. }
  destruct (extname_component pre body sl Hb Hns Hsl Hpre) as [H1 H2].
  rewrite <- Hp in H1, H2.
  destruct (last_dot_split body) as [Hnd|(b1 & r & Eb & Hr)].
  { exfalso. apply Hne. now apply H1. }
  pose proof (H2 b1 r Eb Hr) as Hext.
  destruct (decide (b1 = [] \/ (b1 = [CHAR_DOT] /\ r = []))) as [|Hno];
    [congruence|].
  rewrite Eb in Hns. apply noSlash_app in Hns as [Hn1 Hn2].
  apply Forall_cons in Hn2 as [_ Hn2].
  exists pre, b1, r, sl. split_and!; auto.
  rewrite Hp, Eb. repeat first [rewrite <- app_assoc | progress simpl].
  reflexivity.
Qed.

(** A specifier that does not carry its extension twice in a row has
    another extension, or none, once the extension is removed. *)
Lemma extname_undoubled (stem ext sl : jsstring) :
  ext <> [] ->
  Path.extname (stem ++ ext ++ sl) = ext ->
  allSlash sl ->
  ~ (exists s, stem = s ++ ext) ->
  Path.extname (stem ++ sl) <> ext.
Proof.
  intros Hne He Hsl Hun.
  assert (Hne' : Path.extname (stem ++ ext ++ sl) <> []) by congruence.
  destruct (extname_stem_shape _ Hne')
    as (pre & b1 & r & sl' & Hp & Hpre & Hb1 & Hn1 & Hr & Hnr & Hsl' & Hext).
  rewrite He in Hext. subst ext.
  assert (Hstem : stem = pre ++ b1 /\ sl = sl').
  { assert (Hd : CHAR_DOT :: r <> []) by discriminate.
    destruct (exists_last Hd) as (e' & z & Ez).
    assert (Hz : z <> CHAR_FORWARD_SLASH).
    { assert (Hns : noSlash (CHAR_DOT :: r))
        by (constructor; [discriminate|exact Hnr]).
      rewrite Ez in Hns. apply noSlash_app in Hns as [_ Hns].
      now apply Forall_cons in Hns as [Hns _]. }
    assert (Hflip : forall s, allSlash s ->
                    Forall (fun c => ~ c <> CHAR_FORWARD_SLASH) s).
    { intros s H. eapply Forall_impl; [exact H|]. simpl. intros a -> Ha.
      auto. }
    destruct (split_last_unique (fun x => x <> CHAR_FORWARD_SLASH)
                (stem ++ e') ((pre ++ b1) ++ e') sl sl' z z)
      as (E1 & _ & E3); auto.
    - rewrite Ez in Hp.
      repeat first [rewrite <- app_assoc in Hp | progress simpl in Hp].
      repeat first [rewrite <- app_assoc | progress simpl]. exact Hp.
    - apply app_inv_tail in E1. auto. }
  destruct Hstem as [-> <-].
  destruct (extname_component pre b1 sl Hb1 Hn1 Hsl Hpre) as [H1 H2].
  intros Hrep. rewrite <- app_assoc in Hrep.
  destruct (last_dot_split b1) as [Hnd|(b2 & r2 & Eb & Hr2)].
  - rewrite (H1 Hnd) in Hrep. discriminate.
  - rewrite (H2 b2 r2 Eb Hr2) in Hrep.
    destruct (decide _); [discriminate|]. injection Hrep as <-.
    apply Hun. exists (pre ++ b2). rewrite Eb, <- app_assoc. reflexivity.
Qed.

(** ** The second pass *)

(** C8, as the code has it. For a target whose node covers the quoted
    specifier and that gets a diagnostic with a fix for a non-empty
    canonical extension, analysed again after the fix with the same
    resolved path, options and directories. Under [always], when the
    specifier does not end in a slash (nor in a dot, when the extension
    is the lone dot), the fixed specifier is the old one followed by the
    extension and gets no diagnostic. Under [never], the fixed specifier
    is the old one without its extension, and it gets no diagnostic when
    the old specifier did not carry the extension twice in a row, that
    is, when the text before the removed extension does not itself end
    in that extension. *)
Theorem fix_then_recheck
    (readdirSync : jsstring -> Completion (list jsstring))
    (defaultStyle : Style) (overrideStyle : gmap jsstring OptionValue)
    (t : Target) (d : Descriptor) (f : Fix) :
  verify readdirSync defaultStyle overrideStyle t = Normal (Some d) ->
  fix_ d = Some f ->
  LiteralRange t ->
  (messageId d = requireExt ->
   data_ext d <> [] ->
   (exists stem c, name t = stem ++ [c]
                   /\ c <> CHAR_FORWARD_SLASH
                   /\ (c <> CHAR_DOT \/ data_ext d <> [CHAR_DOT])) ->
   fixedName t f = name t ++ data_ext d
   /\ verify readdirSync defaultStyle overrideStyle (fixedTarget t f)
      = Normal None)
  /\ (messageId d = forbidExt ->
      data_ext d <> [] ->
      forall stem sl,
        name t = stem ++ data_ext d ++ sl ->
        allSlash sl ->
        fixedName t f = stem ++ sl
        /\ (~ (exists s, stem = s ++ data_ext d) ->
            verify readdirSync defaultStyle overrideStyle (fixedTarget t f)
            = Normal None)).
Proof.
  intros H Hf HL.
  destruct (report_inv readdirSync defaultStyle overrideStyle t d H)
    as (fp & exts & Hfp & Htr & Hsep & Hex & Hcan & Hcase).
  set (ext := data_ext d) in *.
  destruct (canonical_is_extname readdirSync fp exts ext Hex Hcan) as [p Hp].
  split.
  - intros Hm Hne (stem & c & Hname & Hc & Hcd).
    destruct Hcase as [(Hst & Hdiff & Hd)|(_ & _ & Hd)];
      [|rewrite Hd in Hm; discriminate].
    rewrite Hd in Hf. unfold requireExtReport in Hf. simpl in Hf.
    destruct (decide _); [|discriminate]. injection Hf as <-.
    pose proof (fixedName_insert t ext HL) as Hfixed.
    split; [exact Hfixed|].
    destruct (extname_is_extension p) as [E|(r & E & Hnd & Hns)];
      [congruence|].
    rewrite <- Hp in E.
    assert (Hnew : Path.extname (name t ++ ext) = ext).
    { rewrite Hname, E, <- app_assoc. simpl.
      apply extname_append; auto.
      destruct Hcd as [?|Hlone]; [auto|right]. congruence. }
    rewrite (verify_canonical readdirSync _ _ (fixedTarget t _) fp exts);
      simpl; auto.
    + rewrite Hcan.
      rewrite (verifyExtension_always _ _ _ exts ext Hst). simpl.
      rewrite Hfixed, Hnew.
      destruct (decide (ext = ext)); [reflexivity|congruence].
    + rewrite Hfixed, hasPathSeparator_app, Hsep. reflexivity.
  - intros Hm Hne stem sl Hname Hsl.
    destruct Hcase as [(_ & _ & Hd)|(Hst & He & Hd)];
      [rewrite Hd in Hm; discriminate|].
    rewrite Hd in Hf. unfold forbidExtReport in Hf. simpl in Hf.
    destruct (decide _); [|discriminate]. injection Hf as <-.
    fold ext.
    assert (Hns : noSlash ext).
    { destruct (extname_is_extension p) as [E|(r & E & _ & Hns)];
        [congruence|].
      rewrite Hp, E. constructor; [discriminate|exact Hns]. }
    assert (Hidx : lastIndexOf (name t) ext = len stem).
    { rewrite Hname. now apply lastIndexOf_ext. }
    assert (Hfixed : fixedName t
                       (mkFix (fst (range (node t)) + 1
                               + lastIndexOf (name t) ext,
                               fst (range (node t)) + 1
                               + lastIndexOf (name t) ext + len ext) [])
                     = stem ++ sl).
    { unfold fixedName. simpl. rewrite Hidx.
      replace (fst (range (node t)) + 1 + len stem
               - (fst (range (node t)) + 1)) with (len stem) by lia.
      replace (fst (range (node t)) + 1 + len stem + len ext
               - (fst (range (node t)) + 1)) with (len stem + len ext) by lia.
      rewrite Hname. apply applyFix_remove. }
    split; [exact Hfixed|].
    intros Hun.
    assert (Hnew : Path.extname (stem ++ sl) <> ext).
    { apply extname_undoubled; auto. rewrite <- Hname. auto. }
    destruct (hasPathSeparator (stem ++ sl)) eqn:Hsep'.
    + rewrite (verify_canonical readdirSync _ _ (fixedTarget t _) fp exts);
        simpl; auto.
      2:{ rewrite Hfixed. exact Hsep'. }
      rewrite Hcan. rewrite (verifyExtension_never _ _ _ exts ext Hst). simpl.
      rewrite Hfixed.
      destruct (decide (ext = Path.extname (stem ++ sl))); [congruence|].
      reflexivity.
    + apply verify_bare. simpl. rewrite Hfixed. exact Hsep'.
Qed.

Lemma fix_then_recheck_witness :
  (fixedName targetNoExt (mkFix (11, 11) (str ".js")) = str "./a.js"
   /\ verify fsPlain always noOverrides
        (fixedTarget targetNoExt (mkFix (11, 11) (str ".js")))
      = Normal None)
  /\ (fixedName targetExt (mkFix (11, 14) []) = str "./a"
      /\ verify fsPlain never noOverrides
           (fixedTarget targetExt (mkFix (11, 14) []))
         = Normal None).
Proof.
  split.
  - apply (proj1 (fix_then_recheck fsPlain always noOverrides targetNoExt
                    (requireExtReport targetNoExt [str ".js"] (str ".js"))
                    (mkFix (11, 11) (str ".js"))
                    ltac:(vm_compute; reflexivity)
                    ltac:(vm_compute; reflexivity)
                    ltac:(vm_compute; reflexivity))).
    + reflexivity.
    + discriminate.
    + exists (str "./"), "a"%char. repeat split; [discriminate|].
      left. discriminate.
  - destruct (proj2 (fix_then_recheck fsPlain never noOverrides targetExt
                      (forbidExtReport targetExt [str ".js"] (str ".js"))
                      (mkFix (11, 14) [])
                      ltac:(vm_compute; reflexivity)
                      ltac:(vm_compute; reflexivity)
                      ltac:(vm_compute; reflexivity))
                   ltac:(reflexivity) ltac:(discriminate)
                   (str "./a") [] ltac:(reflexivity) ltac:(constructor))
      as [Hname Hnone].
    split; [exact Hname|]. apply Hnone.
    intros [s Hs]. apply (f_equal (@length ascii)) in Hs as Hl.
    rewrite length_app in Hl. simpl in Hl.
    destruct s; [discriminate|simpl in Hl; lia].
Defined.


(** ** Fixes that do not change the extension of the specifier *)

(** X10: a file without extension under [never]. When the canonical
    extension is empty, the diagnostic [forbidExt] always has a fix, the
    removal of the empty range at the end of the specifier: the source
    text stays as it is, and the same diagnostic is given again. *)
Theorem empty_extension_fix_is_void
    (readdirSync : jsstring -> Completion (list jsstring))
    (defaultStyle : Style) (overrideStyle : gmap jsstring OptionValue)
    (t : Target) (d : Descriptor) :
  verify readdirSync defaultStyle overrideStyle t = Normal (Some d) ->
  messageId d = forbidExt ->
  data_ext d = [] ->
  fix_ d = Some (voidFix t)
  /\ fixedName t (voidFix t) = name t
  /\ (forall code q pre post,
         SpecifierAt code q t pre post -> applyFix code (voidFix t) = code)
  /\ (LiteralRange t ->
      fixedTarget t (voidFix t) = t
      /\ verify readdirSync defaultStyle overrideStyle
           (fixedTarget t (voidFix t))
         = Normal (Some d)).
Proof.
  intros H Hm Hext.
  destruct (report_inv readdirSync defaultStyle overrideStyle t d H)
    as (fp & exts & _ & _ & _ & _ & Hcan & [(_ & _ & Hd)|(_ & _ & Hd)]).
  { rewrite Hd in Hm. discriminate. }
  assert (Hexts : exts = [[]]).
  { rewrite Hext in Hcan.
    apply canonicalExtension_Some in Hcan as [[Hne E]|[_ ->]];
      [congruence|reflexivity]. }
  assert (Hfix : fix_ d = Some (voidFix t)).
  { rewrite Hd at 1. unfold forbidExtReport, voidFix, Fixer.removeRange.
    simpl. rewrite Hexts. simpl.
    rewrite Hext, lastIndexOf_empty, len_nil, Z.add_0_r. reflexivity. }
  assert (Hname : fixedName t (voidFix t) = name t).
  { unfold fixedName, voidFix. simpl.
    replace (fst (range (node t)) + 1 + len (name t)
             - (fst (range (node t)) + 1)) with (len (name t)) by lia.
    pose proof (applyFix_insert (name t) [] []) as Hins.
    rewrite !app_nil_r in Hins. exact Hins. }
  split_and!; auto.
  - intros code q pre post [-> Hr]. unfold voidFix. rewrite Hr. simpl.
    replace (len pre + 1 + len (name t)) with (len (pre ++ q :: name t))
      by (rewrite len_app, len_cons; lia).
    replace (pre ++ q :: name t ++ q :: post)
      with ((pre ++ q :: name t) ++ q :: post)
      by (rewrite <- app_assoc; reflexivity).
    unfold Fixer.removeRange. rewrite applyFix_insert. reflexivity.
  - intros HL. pose proof (fixedTarget_same t _ HL Hname) as Hsame.
    split; [exact Hsame|]. rewrite Hsame. exact H.
Qed.

(** X11: a specifier that ends in a slash under [always]. A fix for a
    non-empty extension puts the extension after the slash: the fixed
    specifier is the old one followed by the extension, and [extname]
    finds no extension in it, so not the one that the diagnostic asks
    for. *)
Theorem trailing_slash_fix_adds_no_extension
    (readdirSync : jsstring -> Completion (list jsstring))
    (defaultStyle : Style) (overrideStyle : gmap jsstring OptionValue)
    (t : Target) (d : Descriptor) (f : Fix) :
  verify readdirSync defaultStyle overrideStyle t = Normal (Some d) ->
  messageId d = requireExt ->
  fix_ d = Some f ->
  data_ext d <> [] ->
  (exists s, name t = s ++ [CHAR_FORWARD_SLASH]) ->
  (forall code q pre post,
      SpecifierAt code q t pre post ->
      applyFix code f = pre ++ q :: (name t ++ data_ext d) ++ q :: post)
  /\ (LiteralRange t -> fixedName t f = name t ++ data_ext d)
  /\ Path.extname (name t ++ data_ext d) = []
  /\ Path.extname (name t ++ data_ext d) <> data_ext d.
Proof.
  intros H Hm Hf Hne [s Hs].
  destruct (report_inv readdirSync defaultStyle overrideStyle t d H)
    as (fp & exts & Hfp & Htr & Hsep & Hex & Hcan & Hcase).
  set (ext := data_ext d) in *.
  destruct Hcase as [(Hst & _ & Hd)|(_ & _ & Hd)];
    [|rewrite Hd in Hm; discriminate].
  rewrite Hd in Hf. unfold requireExtReport in Hf. simpl in Hf.
  destruct (decide (length exts = 1%nat)) as [Hlen|]; [|discriminate].
  injection Hf as <-.
  destruct (canonical_is_extname readdirSync fp exts ext Hex Hcan) as [p Hp].
  destruct (extname_is_extension p) as [E|(r & E & Hnd & Hns)];
    [congruence|].
  rewrite <- Hp in E.
  assert (Hnew : Path.extname (name t ++ ext) = []).
  { rewrite Hs, E.
    destruct (extname_component (s ++ [CHAR_FORWARD_SLASH]) (CHAR_DOT :: r) [])
      as [_ H2].
    - discriminate.
    - constructor; [discriminate|exact Hns].
    - constructor.
    - right. eauto.
    - rewrite app_nil_r in H2. rewrite (H2 [] r eq_refl Hnd).
      destruct (decide _) as [_|Hno]; [reflexivity|].
      exfalso. apply Hno. auto. }
  split_and!.
  - intros code q pre post [-> Hr]. rewrite Hr. simpl.
    replace (len pre + len (name t) + 2 - 1)
      with (len (pre ++ q :: name t))
      by (rewrite len_app, len_cons; lia).
    replace (pre ++ q :: name t ++ q :: post)
      with ((pre ++ q :: name t) ++ q :: post)
      by (rewrite <- app_assoc; reflexivity).
    rewrite applyFix_insert. rewrite <- !app_assoc. reflexivity.
  - intros HL. now apply fixedName_insert.
  - exact Hnew.
  - rewrite Hnew. congruence.
Qed.

Lemma empty_extension_fix_is_void_witness :
  fix_ (forbidExtReport targetCli [[]] []) = Some (voidFix targetCli)
  /\ fixedName targetCli (voidFix targetCli) = name targetCli
  /\ (forall code q pre post,
         SpecifierAt code q targetCli pre post ->
         applyFix code (voidFix targetCli) = code)
  /\ (LiteralRange targetCli ->
      fixedTarget targetCli (voidFix targetCli) = targetCli
      /\ verify fsCli never noOverrides
           (fixedTarget targetCli (voidFix targetCli))
         = Normal (Some (forbidExtReport targetCli [[]] []))).
Proof.
  apply (empty_extension_fix_is_void fsCli never noOverrides targetCli
           (forbidExtReport targetCli [[]] [])).
  - vm_compute. reflexivity.
  - reflexivity.
  - reflexivity.
Defined.

Lemma trailing_slash_fix_adds_no_extension_witness :
  (forall code q pre post,
      SpecifierAt code q targetDirectory pre post ->
      applyFix code (mkFix (12, 12) (str ".js"))
      = pre ++ q :: (name targetDirectory ++ str ".js") ++ q :: post)
  /\ (LiteralRange targetDirectory ->
      fixedName targetDirectory (mkFix (12, 12) (str ".js"))
      = name targetDirectory ++ str ".js")
  /\ Path.extname (name targetDirectory ++ str ".js") = []
  /\ Path.extname (name targetDirectory ++ str ".js") <> str ".js".
Proof.
  apply (trailing_slash_fix_adds_no_extension fsIndex always noOverrides
           targetDirectory
           (requireExtReport targetDirectory [str ".js"] (str ".js"))
           (mkFix (12, 12) (str ".js"))).
  - vm_compute. reflexivity.
  - reflexivity.
  - vm_compute. reflexivity.
  - discriminate.
  - exists (str "./a"). reflexivity.
Defined.
